(** * codestudio: the stream processor, the tab registry and the MCP tool cache

    A shallow embedding of three pieces of the front end:
    - the hook [useClaudeMessages] (handleMessage, clearMessages,
      loadMessages and the [claude-stream] listener),
    - the two session-routing listeners of [TabContent]
      (handleOpenSessionInTab, handleClaudeSessionSelected),
    - the persisted tool cache of [MCPServerList].

    The code is TypeScript over values that come out of [JSON.parse], so the
    embedding starts with JavaScript's JSON values and the handful of
    language operations the three pieces apply to them. *)

From Stdlib Require Import ZArith Ascii String List Bool Lia.
From stdpp Require Import base option list gmap strings pretty.

Local Open Scope string_scope.
Local Open Scope Z_scope.

(** ** JavaScript values that JSON can carry *)

Module JS.

(** Strings are byte strings holding UTF-8.  Numbers are integers, as call
    indices and token counts are: [JNum n] is the double of value [n], for
    an [n] that a double holds.  A double holds every integer up to 2^53
    exactly and prints it in plain decimal; above, it holds the integers
    that fit 53 significant bits, and an addition rounds to the nearest of
    them ([round_double] below).  Fractions, the infinities and NaN are not
    values of the embedding. *)
Unset Elimination Schemes.
Inductive json : Type :=
| JNull
| JBool (b : bool)
| JNum (n : Z)
| JStr (s : string)
| JArr (elems : list json)
| JObj (props : list (string * json)).
Set Elimination Schemes.

(** [undefined] is not a JSON value; a property read yields [option json]
    and [None] is [undefined]. *)

(** ToBoolean. *)
Definition truthy (v : json) : bool :=
  match v with
  | JNull => false
  | JBool b => b
  | JNum n => negb (n =? 0)
  | JStr s => negb (String.eqb s "")
  | JArr _ | JObj _ => true
  end.

Definition truthy_opt (o : option json) : bool :=
  match o with
  | Some v => truthy v
  | None => false
  end.

(** Own properties of an object, in the object's property order. *)
Fixpoint obj_get (ps : list (string * json)) (k : string) : option json :=
  match ps with
  | [] => None
  | (k', v) :: ps' => if String.eqb k' k then Some v else obj_get ps' k
  end.

(** [v.k] for the property names the front end reads by name ([type],
    [tool_calls], [message], [usage], [content], ...): none of them is an
    index, [length], or a member of a built-in prototype, so only a plain
    object can have one. *)
Definition get (v : json) (k : string) : option json :=
  match v with
  | JObj ps => obj_get ps k
  | _ => None
  end.

(** An array index in the sense of property ordering: the canonical decimal
    form of an integer below 2^32 - 1. *)
Definition digit_val (c : ascii) : option N :=
  let n := N_of_ascii c in
  if ((48 <=? n) && (n <=? 57))%N then Some (n - 48)%N else None.

Fixpoint digits_val (acc : N) (l : list ascii) : option N :=
  match l with
  | [] => Some acc
  | c :: l' =>
      match digit_val c with
      | Some d => digits_val (10 * acc + d)%N l'
      | None => None
      end
  end.

Definition array_index (k : string) : option N :=
  match list_ascii_of_string k with
  | [] => None
  | l =>
      match digits_val 0%N l with
      | Some n =>
          if String.eqb (pretty n) k && (n <? 4294967295)%N then Some n else None
      | None => None
      end
  end.

(** Adding a property that the object does not have yet: integer keys sit
    first, in ascending order; other keys follow in creation order. *)
Fixpoint obj_add_index (ps : list (string * json)) (i : N) (k : string) (v : json)
  : list (string * json) :=
  match ps with
  | [] => [(k, v)]
  | (k', v') :: ps' =>
      match array_index k' with
      | Some j =>
          if (j <? i)%N then (k', v') :: obj_add_index ps' i k v
          else (k, v) :: ps
      | None => (k, v) :: ps
      end
  end.

Fixpoint obj_replace (ps : list (string * json)) (k : string) (v : json)
  : list (string * json) :=
  match ps with
  | [] => []
  | (k', v') :: ps' =>
      if String.eqb k' k then (k', v) :: ps' else (k', v') :: obj_replace ps' k v
  end.

(** [o[k] = v] on a plain object. *)
Definition obj_set (ps : list (string * json)) (k : string) (v : json)
  : list (string * json) :=
  match obj_get ps k with
  | Some _ => obj_replace ps k v
  | None =>
      match array_index k with
      | Some i => obj_add_index ps i k v
      | None => (ps ++ [(k, v)])%list
      end
  end.

(** The statement [o[k] = v] on an object made by a literal: the key
    [__proto__] reaches the prototype's setter and leaves the own
    properties as they are. *)
Definition obj_assign (ps : list (string * json)) (k : string) (v : json)
  : list (string * json) :=
  if String.eqb k "__proto__" then ps else obj_set ps k v.

(** ToString, which is also what ToPrimitive gives for arrays and objects.
    A JSON object has no callable own property, so an own [toString] makes
    the conversion throw a TypeError ([None]); otherwise the prototype's
    methods answer: [Array.prototype.join] for arrays, ["[object Object]"]
    for objects. *)
Fixpoint ToString (v : json) : option string :=
  match v with
  | JNull => Some "null"
  | JBool true => Some "true"
  | JBool false => Some "false"
  | JNum n => Some (pretty n)
  | JStr s => Some s
  | JArr l =>
      (fix join (l : list json) : option string :=
         match l with
         | [] => Some ""
         | e :: l' =>
             let item := match e with JNull => Some "" | _ => ToString e end in
             match item, l' with
             | None, _ => None
             | Some s, [] => Some s
             | Some s, _ :: _ =>
                 match join l' with
                 | Some r => Some (s +:+ "," +:+ r)
                 | None => None
                 end
             end
         end) l
  | JObj ps =>
      match obj_get ps "toString" with
      | Some _ => None
      | None => Some "[object Object]"
      end
  end.

Definition ToPrimitive (v : json) : option json :=
  match v with
  | JArr _ | JObj _ => JStr <$> ToString v
  | _ => Some v
  end.

(** ToNumber on null, booleans and numbers. *)
Definition ToNumber_prim (v : json) : Z :=
  match v with
  | JNum n => n
  | JBool true => 1
  | _ => 0
  end.

(** The largest double, (2^53 - 1) * 2^971. *)
Definition double_max : Z := 2 ^ 1024 - 2 ^ 971.

(** The double nearest to an integer, ties going to the even significand:
    the integer itself up to 2^53, and above it the multiple of 2^e that is
    nearest, where e is the number of bits beyond the 53 of the
    significand.  It is finite for a magnitude up to [double_max]. *)
Definition round_double (n : Z) : Z :=
  let m := Z.abs n in
  if m <? 2 ^ 53 then n
  else
    let e := Z.log2 m - 52 in
    let q := m / 2 ^ e in
    let r := m mod 2 ^ e in
    let half := 2 ^ (e - 1) in
    let q' := if (half <? r) || ((r =? half) && Z.odd q) then q + 1 else q in
    Z.sgn n * (q' * 2 ^ e).

(** [a + b]: a concatenation when either side is a string after
    ToPrimitive, and the sum of the two numbers, rounded to a double,
    otherwise. *)
Definition add (a b : json) : option json :=
  pa ← ToPrimitive a;
  pb ← ToPrimitive b;
  match pa, pb with
  | JStr _, _ | _, JStr _ =>
      sa ← ToString pa; sb ← ToString pb; Some (JStr (sa +:+ sb))
  | _, _ => Some (JNum (round_double (ToNumber_prim pa + ToNumber_prim pb)))
  end.

(** [x || 0]. *)
Definition or_zero (o : option json) : json :=
  match o with
  | Some v => if truthy v then v else JNum 0
  | None => JNum 0
  end.

(** *** White space and StringToNumber *)

(** The white space and line terminators that [String.prototype.trim] and
    StringToNumber strip, read off the UTF-8 bytes: TAB, LF, VT, FF, CR,
    SP; U+00A0; U+1680; U+2000..U+200A, U+2028, U+2029, U+202F; U+205F;
    U+3000; U+FEFF. *)
Definition ws1 (a : ascii) : bool :=
  let n := N_of_ascii a in
  (((9 <=? n) && (n <=? 13)) || (n =? 32))%N.

Definition ws2 (a b : ascii) : bool :=
  ((N_of_ascii a =? 194) && (N_of_ascii b =? 160))%N.

Definition ws3 (a b c : ascii) : bool :=
  let x := N_of_ascii a in
  let y := N_of_ascii b in
  let z := N_of_ascii c in
  (((x =? 225) && (y =? 154) && (z =? 128))
   || ((x =? 226) && (y =? 128)
       && (((128 <=? z) && (z <=? 138)) || (z =? 168) || (z =? 169) || (z =? 175)))
   || ((x =? 226) && (y =? 129) && (z =? 159))
   || ((x =? 227) && (y =? 128) && (z =? 128))
   || ((x =? 239) && (y =? 187) && (z =? 191)))%N.

Fixpoint trim_start (l : list ascii) : list ascii :=
  match l with
  | [] => []
  | a :: l1 =>
      if ws1 a then trim_start l1
      else
        match l1 with
        | b :: l2 =>
            if ws2 a b then trim_start l2
            else
              match l2 with
              | c :: l3 => if ws3 a b c then trim_start l3 else l
              | [] => l
              end
        | [] => l
        end
  end.

(** [s.trim()] is the empty string exactly when stripping the leading white
    space leaves nothing. *)
Definition blank_chars (l : list ascii) : bool :=
  match trim_start l with
  | [] => true
  | _ :: _ => false
  end.

Definition blank (s : string) : bool := blank_chars (list_ascii_of_string s).

Fixpoint span (p : ascii -> bool) (l : list ascii) : list ascii * list ascii :=
  match l with
  | [] => ([], [])
  | a :: l' =>
      if p a then let '(ds, r) := span p l' in (a :: ds, r) else ([], l)
  end.

Definition is_digit (a : ascii) : bool :=
  match digit_val a with Some _ => true | None => false end.

Definition is_hex_digit (a : ascii) : bool :=
  let n := N_of_ascii a in
  (is_digit a || ((65 <=? n) && (n <=? 70)) || ((97 <=? n) && (n <=? 102)))%N.

Definition is_octal_digit (a : ascii) : bool :=
  let n := N_of_ascii a in ((48 <=? n) && (n <=? 55))%N.

Definition is_binary_digit (a : ascii) : bool :=
  let n := N_of_ascii a in ((48 <=? n) && (n <=? 49))%N.

Definition digits_Z (ds : list ascii) : Z :=
  match digits_val 0%N ds with
  | Some n => Z.of_N n
  | None => 0
  end.

(** SignedInteger of an ExponentPart. *)
Definition signed_integer (l : list ascii) : option (Z * list ascii) :=
  let '(neg, l') :=
    match l with
    | "+"%char :: r => (false, r)
    | "-"%char :: r => (true, r)
    | _ => (false, l)
    end in
  match span is_digit l' with
  | ([], _) => None
  | (ds, r) => Some (if neg then - digits_Z ds else digits_Z ds, r)
  end.

(** Is the text a StrUnsignedDecimalLiteral (other than [Infinity]) followed
    by white space only, with a value that rounds to a double above zero?
    The value m * 10^e rounds to +0 exactly when it is at most 2^-1075. *)
Definition decimal_positive (l : list ascii) : bool :=
  let '(int_ds, r1) := span is_digit l in
  let '(frac_ds, r2) :=
    match r1 with
    | "."%char :: r => span is_digit r
    | _ => ([], r1)
    end in
  let '(e, r3) :=
    match r2 with
    | a :: r =>
        if Ascii.eqb a "e" || Ascii.eqb a "E" then
          match signed_integer r with
          | Some (e, r') => (e, r')
          | None => (0, r2)
          end
        else (0, r2)
    | [] => (0, r2)
    end in
  match (int_ds ++ frac_ds)%list with
  | [] => false
  | ds =>
      let m := digits_Z ds in
      let e10 := e - Z.of_nat (length frac_ds) in
      blank_chars r3 && (0 <? m)
      && ((0 <=? e10) || (10 ^ (- e10) <? m * 2 ^ 1075))
  end.

Definition nondecimal_positive (p : ascii -> bool) (l : list ascii) : bool :=
  match span p l with
  | ([], _) => false
  | (ds, r) => blank_chars r && existsb (fun a => negb (Ascii.eqb a "0")) ds
  end.

Definition unsigned_positive (l : list ascii) : bool :=
  match l with
  | "I" :: "n" :: "f" :: "i" :: "n" :: "i" :: "t" :: "y" :: r => blank_chars r
  | _ => decimal_positive l
  end%char.

(** [0 < StringToNumber s], with exact rounding of the decimal value. *)
Definition StringToNumber_positive (s : string) : bool :=
  match trim_start (list_ascii_of_string s) with
  | [] => false
  | "-" :: _ => false
  | "+" :: r => unsigned_positive r
  | "0" :: "x" :: r | "0" :: "X" :: r => nondecimal_positive is_hex_digit r
  | "0" :: "o" :: r | "0" :: "O" :: r => nondecimal_positive is_octal_digit r
  | "0" :: "b" :: r | "0" :: "B" :: r => nondecimal_positive is_binary_digit r
  | l => unsigned_positive l
  end%char.

(** [v > 0]: both sides go through ToPrimitive and ToNumber, and a NaN makes
    the comparison false.  [None] is the TypeError of ToPrimitive. *)
Definition gt_zero (o : option json) : option bool :=
  match o with
  | None => Some false
  | Some (JNum n) => Some (0 <? n)
  | Some (JBool b) => Some b
  | Some JNull => Some false
  | Some (JStr s) => Some (StringToNumber_positive s)
  | Some v => StringToNumber_positive <$> ToString v
  end.

(** [v.length > 0] for a truthy [v]: an array or a string has a length of
    its own, a plain object may have a property of that name, and a number
    or boolean has none ([undefined > 0] is false). *)
Definition length_positive (v : json) : option bool :=
  match v with
  | JArr l => Some (match l with [] => false | _ :: _ => true end)
  | JStr s => Some (negb (String.eqb s ""))
  | JObj ps => gt_zero (obj_get ps "length")
  | _ => Some false
  end.

End JS.

(** ** JSON.parse and JSON.stringify *)

(** The two built-ins, as the front end uses them: [JSON_parse] is [None]
    where [JSON.parse] throws a SyntaxError.  The processor is defined, and
    its properties are proved, for any pair of functions in this role. *)
Class Json := {
  JSON_parse : string -> option JS.json;
  JSON_stringify : JS.json -> string
}.

(** The built-ins themselves, for the texts and values of the embedding:
    [parse] reads JSON whose numbers have an integer value, written with or
    without a fraction and an exponent, and whose [\u] escapes name no
    surrogate.  A text with a number whose decimal value is not an integer,
    or is beyond the largest double, is outside the embedding: [parse] is
    not defined on it, and nothing below evaluates it on one. *)
Module JSON.
Import JS.

Definition json_ws (a : ascii) : bool :=
  let n := N_of_ascii a in
  ((n =? 32) || (n =? 9) || (n =? 10) || (n =? 13))%N.

Fixpoint skip_ws (l : list ascii) : list ascii :=
  match l with
  | [] => []
  | a :: l' => if json_ws a then skip_ws l' else l
  end.

Definition hex_val (a : ascii) : option N :=
  let n := N_of_ascii a in
  if ((48 <=? n) && (n <=? 57))%N then Some (n - 48)%N
  else if ((65 <=? n) && (n <=? 70))%N then Some (n - 55)%N
  else if ((97 <=? n) && (n <=? 102))%N then Some (n - 87)%N
  else None.

Definition hex4 (a b c d : ascii) : option N :=
  x ← hex_val a; y ← hex_val b; z ← hex_val c; w ← hex_val d;
  Some (4096 * x + 256 * y + 16 * z + w)%N.

(** UTF-8 of a code point of the basic plane. *)
Definition utf8 (cp : N) : list ascii :=
  (if cp <? 128 then [ascii_of_N cp]
   else if cp <? 2048 then
     [ascii_of_N (192 + cp / 64); ascii_of_N (128 + cp mod 64)]
   else
     [ascii_of_N (224 + cp / 4096); ascii_of_N (128 + (cp / 64) mod 64);
      ascii_of_N (128 + cp mod 64)])%N.

(** The characters of a string literal after its opening quote (code 34),
    up to the closing one; code 92 is the backslash. *)
Fixpoint parse_chars (l : list ascii) : option (list ascii * list ascii) :=
  match l with
  | [] => None
  | a :: r =>
      match N_of_ascii a with
      | 34%N => Some ([], r)
      | 92%N =>
          match r with
          | e :: r' =>
              let simple (c : N) :=
                '(s, t) ← parse_chars r'; Some (ascii_of_N c :: s, t) in
              match N_of_ascii e with
              | 34%N => simple 34%N
              | 92%N => simple 92%N
              | 47%N => simple 47%N
              | 98%N => simple 8%N
              | 102%N => simple 12%N
              | 110%N => simple 10%N
              | 114%N => simple 13%N
              | 116%N => simple 9%N
              | 117%N =>
                  match r' with
                  | h1 :: h2 :: h3 :: h4 :: r'' =>
                      cp ← hex4 h1 h2 h3 h4;
                      if ((55296 <=? cp) && (cp <=? 57343))%N then None
                      else '(s, t) ← parse_chars r''; Some ((utf8 cp ++ s)%list, t)
                  | _ => None
                  end
              | _ => None
              end
          | [] => None
          end
      | n =>
          if (n <? 32)%N then None
          else '(s, t) ← parse_chars r; Some (a :: s, t)
      end
  end.

(** A number: an optional minus sign, then [0] or a digit sequence that
    does not start with [0], then an optional fraction and an optional
    exponent.  The value is the double nearest to the decimal value. *)
Definition parse_number (l : list ascii) : option (json * list ascii) :=
  let '(neg, l') :=
    match l with
    | "-"%char :: r => (true, r)
    | _ => (false, l)
    end in
  let '(int_ds, r1) :=
    match l' with
    | "0"%char :: r => (["0"%char], r)
    | _ => span is_digit l'
    end in
  match int_ds with
  | [] => None
  | _ =>
      '(frac_ds, r2) ←
        match r1 with
        | "."%char :: r =>
            match span is_digit r with
            | ([], _) => None
            | (fs, r') => Some (fs, r')
            end
        | _ => Some ([], r1)
        end;
      '(e, r3) ←
        match r2 with
        | a :: r =>
            if Ascii.eqb a "e" || Ascii.eqb a "E" then signed_integer r
            else Some (0, r2)
        | [] => Some (0, r2)
        end;
      let m := digits_Z (int_ds ++ frac_ds)%list in
      let e10 := e - Z.of_nat (length frac_ds) in
      n ←
        (if m =? 0 then Some 0
         else if 0 <=? e10 then
           if e10 <=? 308 then Some (m * 10 ^ e10) else None
         else if - e10 <=? Z.of_nat (length (int_ds ++ frac_ds)%list) then
           if m mod 10 ^ (- e10) =? 0 then Some (m / 10 ^ (- e10)) else None
         else None);
      if n <? 2 ^ 1024 - 2 ^ 970
      then Some (JNum (round_double (if neg then - n else n)), r3)
      else None
  end.

Fixpoint parse_value (fuel : nat) (l : list ascii) : option (json * list ascii) :=
  match fuel with
  | O => None
  | S fuel' =>
      match skip_ws l with
      | "n" :: "u" :: "l" :: "l" :: r => Some (JNull, r)
      | "t" :: "r" :: "u" :: "e" :: r => Some (JBool true, r)
      | "f" :: "a" :: "l" :: "s" :: "e" :: r => Some (JBool false, r)
      | "[" :: r =>
          match skip_ws r with
          | "]" :: r' => Some (JArr [], r')
          | _ => '(vs, r') ← parse_elements fuel' r; Some (JArr vs, r')
          end
      | "{" :: r =>
          match skip_ws r with
          | "}" :: r' => Some (JObj [], r')
          | _ =>
              '(ms, r') ← parse_members fuel' r;
              Some (JObj (fold_left (fun ps m => obj_set ps m.1 m.2) ms []), r')
          end
      | a :: r =>
          if (N_of_ascii a =? 34)%N then
            '(s, r') ← parse_chars r; Some (JStr (string_of_list_ascii s), r')
          else parse_number (a :: r)
      | [] => None
      end%char
  end
with parse_elements (fuel : nat) (l : list ascii) : option (list json * list ascii) :=
  match fuel with
  | O => None
  | S fuel' =>
      '(v, r) ← parse_value fuel' l;
      match skip_ws r with
      | "," :: r' => '(vs, r'') ← parse_elements fuel' r'; Some (v :: vs, r'')
      | "]" :: r' => Some ([v], r')
      | _ => None
      end%char
  end
with parse_members (fuel : nat) (l : list ascii)
  : option (list (string * json) * list ascii) :=
  match fuel with
  | O => None
  | S fuel' =>
      match skip_ws l with
      | q :: r =>
          if (N_of_ascii q =? 34)%N then
            '(k, r1) ← parse_chars r;
            match skip_ws r1 with
            | ":" :: r2 =>
                '(v, r3) ← parse_value fuel' r2;
                let m := (string_of_list_ascii k, v) in
                match skip_ws r3 with
                | "," :: r4 => '(ms, r5) ← parse_members fuel' r4; Some (m :: ms, r5)
                | "}" :: r4 => Some ([m], r4)
                | _ => None
                end
            | _ => None
            end
          else None
      | [] => None
      end%char
  end.

(** Every call consumes a character, so the length of the text bounds the
    depth of the recursion. *)
Definition parse (s : string) : option json :=
  let l := list_ascii_of_string s in
  '(v, r) ← parse_value (2 * S (length l)) l;
  match skip_ws r with
  | [] => Some v
  | _ :: _ => None
  end.

Definition hex_digit (n : N) : ascii :=
  (if n <? 10 then ascii_of_N (48 + n) else ascii_of_N (87 + n))%N.

(** QuoteJSONString, without the surrounding quotes. *)
Fixpoint quote_chars (l : list ascii) : list ascii :=
  match l with
  | [] => []
  | a :: r =>
      let esc (c : N) := [ascii_of_N 92; ascii_of_N c] in
      (match N_of_ascii a with
       | 34%N => esc 34%N
       | 92%N => esc 92%N
       | 8%N => esc 98%N
       | 12%N => esc 102%N
       | 10%N => esc 110%N
       | 13%N => esc 114%N
       | 9%N => esc 116%N
       | n =>
           if (n <? 32)%N then
             (esc 117%N ++ ["0"%char; "0"%char; hex_digit (n / 16); hex_digit (n mod 16)])%list
           else [a]
       end ++ quote_chars r)%list
  end.

Definition quote (s : string) : string :=
  string_of_list_ascii
    ((ascii_of_N 34 :: quote_chars (list_ascii_of_string s)) ++ [ascii_of_N 34])%list.

(** The digits that the language prints for a double [m] above 2^53: the
    multiple of the largest power of ten that reads back as [m], that is,
    that lies between the midpoints to the two neighbours of [m], the
    midpoints included when the significand of [m] is even.  Of two such
    multiples the one nearer to [m] is taken, and the one with the even
    quotient when they are as near.  The result is the quotient and the
    exponent of the power of ten. *)
Fixpoint shortest_decimal (fuel : nat) (p t m lo2 hi2 : Z) (inclusive : bool) : Z * Z :=
  match fuel with
  | O => (m, 0)
  | S fuel' =>
      let inside (c : Z) :=
        if inclusive then (lo2 <=? 2 * c) && (2 * c <=? hi2)
        else (lo2 <? 2 * c) && (2 * c <? hi2) in
      let a := m / p * p in
      let b := a + p in
      match inside a, inside b with
      | true, true =>
          if m - a <? b - m then (a / p, t)
          else if b - m <? m - a then (b / p, t)
          else if Z.even (a / p) then (a / p, t) else (b / p, t)
      | true, false => (a / p, t)
      | false, true => (b / p, t)
      | false, false => shortest_decimal fuel' (p / 10) (t - 1) m lo2 hi2 inclusive
      end
  end.

(** Number::toString on an integer that is a double: plain decimal up to
    2^53; above, the shortest digits that read back as the number, followed
    by zeros below 10^21 and by an exponent from there on. *)
Definition number_text (x : Z) : string :=
  let m := Z.abs x in
  if m <? 2 ^ 53 then pretty x
  else
    let e := Z.log2 m - 52 in
    let q := m / 2 ^ e in
    let succ := (q + 1) * 2 ^ e in
    let pred := if q =? 2 ^ 52 then (2 ^ 53 - 1) * 2 ^ (e - 1) else (q - 1) * 2 ^ e in
    let T := Z.log2 m * 31 / 100 + 2 in
    let '(s, t) :=
      shortest_decimal (S (Z.to_nat T)) (10 ^ T) T m (m + pred) (m + succ) (Z.even q) in
    let digits := pretty s in
    let n := Z.of_nat (String.length digits) + t in
    let text :=
      if n <=? 21 then digits +:+ string_of_list_ascii (repeat "0"%char (Z.to_nat t))
      else
        match digits with
        | String d EmptyString => String d ("e+" +:+ pretty (n - 1))
        | String d rest => String d ("." +:+ rest +:+ "e+" +:+ pretty (n - 1))
        | EmptyString => ""
        end in
    if x <? 0 then "-" +:+ text else text.

Fixpoint stringify (v : json) : string :=
  match v with
  | JNull => "null"
  | JBool true => "true"
  | JBool false => "false"
  | JNum n => number_text n
  | JStr s => quote s
  | JArr l =>
      "[" +:+
      (fix elements (l : list json) : string :=
         match l with
         | [] => ""
         | [e] => stringify e
         | e :: l' => stringify e +:+ "," +:+ elements l'
         end) l
      +:+ "]"
  | JObj ps =>
      "{" +:+
      (fix members (ps : list (string * json)) : string :=
         match ps with
         | [] => ""
         | [(k, x)] => quote k +:+ ":" +:+ stringify x
         | (k, x) :: ps' => quote k +:+ ":" +:+ stringify x +:+ "," +:+ members ps'
         end) ps
      +:+ "}"
  end.

End JSON.

Definition ecma_json : Json :=
  {| JSON_parse := JSON.parse; JSON_stringify := JSON.stringify |}.

(** JSON texts are written below with an apostrophe for each double quote. *)
Definition js_text (s : string) : string :=
  string_of_list_ascii
    (map (fun a => if (N_of_ascii a =? 39)%N then ascii_of_N 34 else a)
       (list_ascii_of_string s)).

(** ** The hook useClaudeMessages *)

Module Hook.
Import JS.

(** The hook's options: which of the three optional callbacks the caller
    supplied.  A call through [?.] reaches a callback only when it is there. *)
Record UseClaudeMessagesOptions := {
  onSessionInfo : bool;
  onTokenUpdate : bool;
  onStreamingChange : bool
}.

(** What the hook does to the outside: the callbacks it invokes, with their
    arguments, and the diagnostics it writes with [console.error]. *)
Inductive Call :=
| SessionInfo (sessionId projectId : json)
| TokenUpdate (tokens : json)
| StreamingChange (isStreaming : bool) (sessionId : json)
| ConsoleError (msg : string).

(** The four [useState] cells and the [accumulatedContentRef] object.
    [currentSessionId] starts as [null]. *)
Record State := {
  messages : list json;
  rawJsonlOutput : list string;
  isStreaming : bool;
  currentSessionId : json;
  accumulatedContent : gmap string string
}.

Definition initial : State :=
  {| messages := []; rawJsonlOutput := []; isStreaming := false;
     currentSessionId := JNull; accumulatedContent := ∅ |}.

Definition setMessages (f : list json -> list json) (st : State) : State :=
  {| messages := f (messages st); rawJsonlOutput := rawJsonlOutput st;
     isStreaming := isStreaming st; currentSessionId := currentSessionId st;
     accumulatedContent := accumulatedContent st |}.

Definition setRawJsonlOutput (f : list string -> list string) (st : State) : State :=
  {| messages := messages st; rawJsonlOutput := f (rawJsonlOutput st);
     isStreaming := isStreaming st; currentSessionId := currentSessionId st;
     accumulatedContent := accumulatedContent st |}.

Definition setIsStreaming (b : bool) (st : State) : State :=
  {| messages := messages st; rawJsonlOutput := rawJsonlOutput st;
     isStreaming := b; currentSessionId := currentSessionId st;
     accumulatedContent := accumulatedContent st |}.

Definition setCurrentSessionId (v : json) (st : State) : State :=
  {| messages := messages st; rawJsonlOutput := rawJsonlOutput st;
     isStreaming := isStreaming st; currentSessionId := v;
     accumulatedContent := accumulatedContent st |}.

Definition setAccumulated (f : gmap string string -> gmap string string)
    (st : State) : State :=
  {| messages := messages st; rawJsonlOutput := rawJsonlOutput st;
     isStreaming := isStreaming st; currentSessionId := currentSessionId st;
     accumulatedContent := f (accumulatedContent st) |}.

(** A computation of the hook: it may throw (a TypeError), and what it did
    to the state and to the outside before throwing stays done. *)
Inductive completion (A : Type) :=
| Normal (a : A)
| Throw.
Arguments Normal {A} a.
Arguments Throw {A}.

Definition M (A : Type) : Type := State -> completion A * State * list Call.

Definition ret {A} (a : A) : M A := fun st => (Normal a, st, []).

Definition bind {A B} (m : M A) (k : A -> M B) : M B :=
  fun st =>
    match m st with
    | (Normal a, st1, c1) =>
        let '(r, st2, c2) := k a st1 in (r, st2, (c1 ++ c2)%list)
    | (Throw, st1, c1) => (Throw, st1, c1)
    end.

Definition throw {A} : M A := fun st => (Throw, st, []).

Definition update (f : State -> State) : M unit := fun st => (Normal tt, f st, []).

Definition read {A} (f : State -> A) : M A := fun st => (Normal (f st), st, []).

Definition call (c : Call) : M unit := fun st => (Normal tt, st, [c]).

Definition calls (cs : list Call) : M unit := fun st => (Normal tt, st, cs).

(** [options.callback?.(args)] *)
Definition call_if (present : bool) (c : Call) : M unit :=
  if present then call c else ret tt.

(** A language operation that throws where the embedding says [None]. *)
Definition lift {A} (o : option A) : M A :=
  match o with
  | Some a => ret a
  | None => throw
  end.

Declare Scope hook_scope.
Delimit Scope hook_scope with hook.
Notation "x <- m ;; k" := (bind m (fun x => k))
  (at level 100, m at next level, right associativity) : hook_scope.
Notation "m ;; k" := (bind m (fun _ => k))
  (at level 100, right associativity) : hook_scope.
Local Open Scope hook_scope.

Definition is_type (message : json) (t : string) : bool :=
  match get message "type" with
  | Some (JStr s) => String.eqb s t
  | _ => false
  end.

(** The body of the [forEach] callback; the result is the tool call as the
    callback leaves it.  Reading [.content] of [null] throws.  The buffer is
    a plain object whose keys all start with [tool-], so none of them meets
    a property of the prototype, and a finite map from keys to strings
    stands for it. *)
Definition accumulate (toolCall : json) : M json :=
  match toolCall with
  | JNull => throw
  | _ =>
      (* if (toolCall.content && toolCall.partial_tool_call_index !== undefined) *)
      match get toolCall "content", get toolCall "partial_tool_call_index" with
      | Some content, Some index =>
          if truthy content then
            (* const key = `tool-${toolCall.partial_tool_call_index}` *)
            suffix <- lift (ToString index);;
            let key := "tool-" +:+ suffix in
            (* if (!acc[key]) acc[key] = "" *)
            update (setAccumulated (fun acc =>
              match acc !! key with
              | Some (String _ _) => acc
              | _ => <[key := ""]> acc
              end));;
            (* acc[key] += toolCall.content *)
            current <- read (fun st => default "" (accumulatedContent st !! key));;
            delta <- lift (ToString content);;
            update (setAccumulated <[key := current +:+ delta]>);;
            (* toolCall.accumulated_content = acc[key] *)
            accumulated <- read (fun st => default "" (accumulatedContent st !! key));;
            match toolCall with
            | JObj ps => ret (JObj (obj_set ps "accumulated_content" (JStr accumulated)))
            | _ => ret toolCall
            end
          else ret toolCall
      | _, _ => ret toolCall
      end
  end.

Fixpoint forEach (f : json -> M json) (l : list json) : M (list json) :=
  match l with
  | [] => ret []
  | x :: l' => y <- f x;; ys <- forEach f l';; ret (y :: ys)
  end.

(** The [partial] branch; the result is the message as the branch leaves
    it, with the tool calls of its array updated in place.  Only an array
    has a [forEach]: on a string or an object whose length is above zero the
    call throws. *)
Definition accumulate_tool_calls (message : json) : M json :=
  match get message "tool_calls" with
  | Some tool_calls =>
      if truthy tool_calls then
        positive <- lift (length_positive tool_calls);;
        if positive : bool then
          match tool_calls, message with
          | JArr l, JObj ps =>
              l' <- forEach accumulate l;;
              ret (JObj (obj_set ps "tool_calls" (JArr l')))
          | _, _ => throw
          end
        else ret message
      else ret message
  | None => ret message
  end.

(** [message.message?.usage] *)
Definition usage_of (message : json) : option json :=
  match get message "message" with
  | Some m => get m "usage"
  | None => None
  end.

Section Processor.
Context {J : Json}.
Variable options : UseClaudeMessagesOptions.

(** The chain of branches on the message type; the result is the message
    as the taken branch leaves it. *)
Definition dispatch (message : json) : M json :=
  if is_type message "start" then
    update (setAccumulated (fun _ => ∅));;
    update (setIsStreaming true);;
    sid <- read currentSessionId;;
    call_if (onStreamingChange options) (StreamingChange true sid);;
    ret message
  else if is_type message "partial" then
    accumulate_tool_calls message
  else if is_type message "response" && truthy_opt (usage_of message) then
    let usage := default JNull (usage_of message) in
    totalTokens <- lift (add (or_zero (get usage "input_tokens"))
                             (or_zero (get usage "output_tokens")));;
    call_if (onTokenUpdate options) (TokenUpdate totalTokens);;
    ret message
  else if is_type message "error" || is_type message "response" then
    update (setIsStreaming false);;
    sid <- read currentSessionId;;
    call_if (onStreamingChange options) (StreamingChange false sid);;
    ret message
  else ret message.

(** The two appends that follow the chain. *)
Definition append (message : json) : M unit :=
  update (setMessages (fun prev => prev ++ [message])%list);;
  update (setRawJsonlOutput (fun prev => prev ++ [JSON_stringify message])%list).

(** The step under the comment "Extract session info". *)
Definition extractSessionInfo (message : json) : M unit :=
  if is_type message "session_info"
     && truthy_opt (get message "session_id")
     && truthy_opt (get message "project_id")
  then
    call_if (onSessionInfo options)
      (SessionInfo (default JNull (get message "session_id"))
                   (default JNull (get message "project_id")));;
    update (setCurrentSessionId (default JNull (get message "session_id")))
  else ret tt.

(** handleMessage.  Reading [.type] of [null] throws; every other JSON value
    answers [undefined] or the property.  The closure's [currentSessionId]
    is the state's: the hook is rendered again between two payloads. *)
Definition handleMessage (message : json) : M unit :=
  match message with
  | JNull => throw
  | _ =>
      message' <- dispatch message;;
      append message';;
      extractSessionInfo message
  end.

(** clearMessages. *)
Definition clearMessages : M unit :=
  update (setMessages (fun _ => []));;
  update (setRawJsonlOutput (fun _ => []));;
  update (setAccumulated (fun _ => ∅)).

(** [jsonl.split('\n')]: the first piece and the pieces after it. *)
Fixpoint split_newline (s : string) : string * list string :=
  match s with
  | EmptyString => ("", [])
  | String a s' =>
      let '(piece, pieces) := split_newline s' in
      if (N_of_ascii a =? 10)%N then ("", piece :: pieces)
      else (String a piece, pieces)
  end.

Definition split_lines (s : string) : list string :=
  let '(piece, pieces) := split_newline s in piece :: pieces.

(** The inner [lines.forEach] of loadMessages, over the two local arrays. *)
Fixpoint load_lines (lines : list string)
    (loadedMessages : list json) (loadedRawJsonl : list string) (errors : list Call)
  : list json * list string * list Call :=
  match lines with
  | [] => (loadedMessages, loadedRawJsonl, errors)
  | line :: lines' =>
      match JSON_parse line with
      | Some msg =>
          load_lines lines' (loadedMessages ++ [msg])%list
            (loadedRawJsonl ++ [line])%list errors
      | None =>
          load_lines lines' loadedMessages loadedRawJsonl
            (errors ++ [ConsoleError "Failed to parse JSONL:"])%list
      end
  end.

(** The body of [outputs.forEach] in loadMessages: an empty output is
    skipped, another is split into lines, the blank ones dropped, and the
    rest parsed one by one. *)
Definition read_output (jsonl : string) : list json * list string * list Call :=
  if String.eqb jsonl "" then ([], [], [])
  else
    load_lines (filter (fun line => negb (blank line)) (split_lines jsonl))
      [] [] [].

(** loadMessages, from the point where [api.getSessionOutput] has settled:
    [None] is a rejected request, which is logged and thrown again, and
    [Some jsonl] the stored output of the session. *)
Definition loadMessages (output : option string) : M unit :=
  match output with
  | None => call (ConsoleError "Failed to load session outputs:");; throw
  | Some jsonl =>
      let '(loadedMessages, loadedRawJsonl, errors) := read_output jsonl in
      calls errors;;
      update (setMessages (fun _ => loadedMessages));;
      update (setRawJsonlOutput (fun _ => loadedRawJsonl))
  end.

(** The listener on the [claude-stream] channel: one payload in, the state
    after it and the calls made.  Anything thrown while parsing or handling
    is caught and logged. *)
Definition ingest (st : State) (payload : string) : State * list Call :=
  match JSON_parse payload with
  | Some message =>
      match handleMessage message st with
      | (Normal _, st', calls) => (st', calls)
      | (Throw, st', calls) =>
          (st', calls ++ [ConsoleError "[TRACE] Failed to parse Claude stream message:"])%list
      end
  | None => (st, [ConsoleError "[TRACE] Failed to parse Claude stream message:"])
  end.

(** The listener on the stream of payloads, one render per payload. *)
Fixpoint ingest_all (st : State) (payloads : list string) : State * list Call :=
  match payloads with
  | [] => (st, [])
  | payload :: payloads' =>
      let '(st1, c1) := ingest st payload in
      let '(st2, c2) := ingest_all st1 payloads' in
      (st2, (c1 ++ c2)%list)
  end.

End Processor.

(** The two logs are the same in two states. *)
Definition same_log (st st' : State) : Prop :=
  messages st' = messages st /\ rawJsonlOutput st' = rawJsonlOutput st.

(** The line feed, the blob of a list of lines, and the lines that can come
    out of a split. *)
Definition newline : string := String (ascii_of_N 10) "".

Definition join_lines (lines : list string) : string := String.concat newline lines.

Fixpoint newline_free (s : string) : bool :=
  match s with
  | EmptyString => true
  | String a s' => negb (N_of_ascii a =? 10)%N && newline_free s'
  end.

(** Tool-call fragments as the interface types them: the call index a
    number, the content a string. *)
Definition fragment_index (f : json) : option Z :=
  match get f "partial_tool_call_index" with
  | Some (JNum i) => Some i
  | _ => None
  end.

Definition fragment_content (f : json) : option string :=
  match get f "content" with
  | Some (JStr c) => Some c
  | _ => None
  end.

Definition typed_fragment (f : json) : Prop :=
  is_Some (fragment_index f) /\ is_Some (fragment_content f).

Definition tool_calls_of (message : json) : list json :=
  match get message "tool_calls" with
  | Some (JArr l) => l
  | _ => []
  end.



(** The concatenation, in arrival order, of the contents of the fragments
    that carry the index [i]. *)
Fixpoint concat_contents (i : Z) (fs : list json) : string :=
  match fs with
  | [] => ""
  | f :: fs' =>
      (if bool_decide (fragment_index f = Some i)
       then default "" (fragment_content f) else "")
      +:+ concat_contents i fs'
  end.


(** The key of the accumulation buffer for the index [i]. *)
Definition buffer_key (i : Z) : string := "tool-" +:+ pretty i.

(** The buffer holds, for every index, the concatenation of the contents
    seen for it. *)
Definition buffer_holds (acc : gmap string string) (seen : list json) : Prop :=
  forall i, default "" (acc !! buffer_key i) = concat_contents i seen.

(** A typed fragment as the partial branch leaves it, after the fragments
    [seen] since the last start. *)
Definition annotated (seen : list json) (f : json) : json :=
  match f, fragment_index f, fragment_content f with
  | JObj ps, Some i, Some (String _ _) =>
      JObj (obj_set ps "accumulated_content"
              (JStr (concat_contents i (seen ++ [f])%list)))
  | _, _, _ => f
  end.


End Hook.

(** ** The session-routing listeners of TabContent *)

Module Tabs.

(** Modelled from the spec: the tab variants of [TabContext], whose
    declaration is not among the sources. *)
Inductive TabType :=
| projects | chat | agent | agents | usage | mcp | settings
| claude_md | claude_file | agent_execution | create_agent | import_agent.

(** What the listeners read of the session in an event: its id and its
    project path, both strings in the interface. *)
Record Session := {
  session_id : string;
  project_path : string
}.

(** Modelled from the spec: a tab, with the fields that the two listeners
    read or write, and the registry of tabs with its active tab. *)
Record Tab := {
  id : string;
  type : TabType;
  title : string;
  sessionId : option string;
  sessionData : option Session;
  initialProjectPath : option string
}.

Record Registry := {
  tabs : list Tab;
  activeTabId : option string
}.

(** The object literal handed to updateTab: the fields it names. *)
Record Updates := {
  set_type : option TabType;
  set_title : option string;
  set_sessionId : option string;
  set_sessionData : option Session;
  set_initialProjectPath : option string
}.

Definition merge (t : Tab) (u : Updates) : Tab :=
  {| id := id t;
     type := default (type t) (set_type u);
     title := default (title t) (set_title u);
     sessionId := match set_sessionId u with Some s => Some s | None => sessionId t end;
     sessionData := match set_sessionData u with Some s => Some s | None => sessionData t end;
     initialProjectPath :=
       match set_initialProjectPath u with
       | Some p => Some p
       | None => initialProjectPath t
       end |}.

(** [path.split('/').pop()]: what follows the last slash. *)
Fixpoint last_segment (path : string) : string :=
  match path with
  | EmptyString => ""
  | String a rest =>
      if (N_of_ascii a =? 47)%N then last_segment rest
      else if existsb (fun b => (N_of_ascii b =? 47)%N) (list_ascii_of_string rest)
      then last_segment rest
      else path
  end.

(** [session.project_path.split('/').pop() || 'Session'] *)
Definition session_title (session : Session) : string :=
  let name := last_segment (project_path session) in
  if String.eqb name "" then "Session" else name.

Section TabContext.

(** Modelled from the spec: the tab context behind [useTabState] is not among
    the sources; the spec gives its operations.  Ids of new tabs come from a
    generator that the spec only requires to be fresh. *)
Variable generateTabId : list Tab -> string.

(** Modelled from the spec: findTabBySessionId is a linear lookup of the
    session id among the tabs. *)
Definition findTabBySessionId (r : Registry) (sid : string) : option Tab :=
  find (fun t => bool_decide (sessionId t = Some sid)) (tabs r).

(** Modelled from the spec: updateTab merges the fields into the addressed
    tab, and does nothing when no tab has that id. *)
Definition updateTab (r : Registry) (tabId : string) (u : Updates) : Registry :=
  {| tabs := map (fun t => if String.eqb (id t) tabId then merge t u else t) (tabs r);
     activeTabId := activeTabId r |}.

(** Modelled from the spec: switchTo sets the active tab; it is what the
    [switch-to-tab] event asks for. *)
Definition switchTo (r : Registry) (tabId : string) : Registry :=
  {| tabs := tabs r; activeTabId := Some tabId |}.

(** Modelled from the spec: creating a tab appends it under a fresh id and
    makes it active; createChatTab binds the session id, the title and the
    project path of a new chat tab and returns its id. *)
Definition createChatTab (r : Registry) (sid title0 path : string)
  : string * Registry :=
  let newId := generateTabId (tabs r) in
  (newId,
   {| tabs := tabs r ++
        [{| id := newId; type := chat; title := title0; sessionId := Some sid;
            sessionData := None; initialProjectPath := Some path |}];
      activeTabId := Some newId |}).

(** The listener of [open-session-in-tab]. *)
Definition handleOpenSessionInTab (r : Registry) (session : Session) : Registry :=
  match findTabBySessionId r (session_id session) with
  | Some existingTab =>
      let r1 :=
        updateTab r (id existingTab)
          {| set_type := None; set_title := Some (session_title session);
             set_sessionId := None; set_sessionData := Some session;
             set_initialProjectPath := None |} in
      switchTo r1 (id existingTab)
  | None =>
      let projectName := session_title session in
      let '(newTabId, r1) :=
        createChatTab r (session_id session) projectName (project_path session) in
      updateTab r1 newTabId
        {| set_type := None; set_title := None; set_sessionId := None;
           set_sessionData := Some session;
           set_initialProjectPath := Some (project_path session) |}
  end.

(** The listener of [claude-session-selected]. *)
Definition handleClaudeSessionSelected (r : Registry) (session : Session) : Registry :=
  match findTabBySessionId r (session_id session) with
  | Some existingTab =>
      let r1 :=
        updateTab r (id existingTab)
          {| set_type := None; set_title := Some (session_title session);
             set_sessionId := None; set_sessionData := Some session;
             set_initialProjectPath := None |} in
      switchTo r1 (id existingTab)
  | None =>
      let currentTab :=
        find (fun t => bool_decide (Some (id t) = activeTabId r)) (tabs r) in
      match currentTab with
      | Some t =>
          match type t with
          | projects =>
              updateTab r (id t)
                {| set_type := Some chat; set_title := Some (session_title session);
                   set_sessionId := Some (session_id session);
                   set_sessionData := Some session;
                   set_initialProjectPath := Some (project_path session) |}
          | _ =>
              let '(newTabId, r1) :=
                createChatTab r (session_id session) (session_title session)
                  (project_path session) in
              updateTab r1 newTabId
                {| set_type := None; set_title := None; set_sessionId := None;
                   set_sessionData := Some session;
                   set_initialProjectPath := Some (project_path session) |}
          end
      | None =>
          let '(newTabId, r1) :=
            createChatTab r (session_id session) (session_title session)
              (project_path session) in
          updateTab r1 newTabId
            {| set_type := None; set_title := None; set_sessionId := None;
               set_sessionData := Some session;
               set_initialProjectPath := Some (project_path session) |}
      end
  end.

End TabContext.

(** The registry's invariant on sessions: no session id on two tabs. *)
Definition sessions_unique (r : Registry) : Prop :=
  NoDup (omap sessionId (tabs r)).

End Tabs.

(** ** The persisted tool cache of MCPServerList *)

Module MCP.
Import JS.

(** [serverTools] is whatever the component last stored in it: the empty
    object at first, later an object it built or the value parsed from the
    store.  [storage] is the item under the key [mcp_server_tools] of the
    local store, [None] when there is none. *)
Record State := {
  serverTools : json;
  testingServer : option string;
  storage : option string
}.

Definition mounted (saved : option string) : State :=
  {| serverTools := JObj []; testingServer := None; storage := saved |}.

(** The UTF-8 sequences of a string, one per character. *)
Fixpoint characters (fuel : nat) (l : list ascii) : list string :=
  match fuel, l with
  | S fuel', a :: r =>
      let n := N_of_ascii a in
      let k := (if (n <? 192)%N then 1 else if (n <? 224)%N then 2
                else if (n <? 240)%N then 3 else 4)%nat in
      string_of_list_ascii (take k l) :: characters fuel' (drop k l)
  | _, _ => []
  end.

(** The own enumerable properties that [{...v}] copies: those of an object,
    the elements of an array under their indices, the characters of a string
    under theirs (of the basic plane: one UTF-16 unit each), and nothing for
    the other values. *)
Definition spread (v : json) : list (string * json) :=
  match v with
  | JObj ps => ps
  | JArr l => imap (fun i x => (pretty (N.of_nat i), x)) l
  | JStr s =>
      let l := list_ascii_of_string s in
      imap (fun i c => (pretty (N.of_nat i), JStr c)) (characters (length l) l)
  | _ => []
  end.

(** The outcome of [api.mcpGet]: rejected (or resolved with nothing to read
    a status from, which throws into the same [catch]), or resolved with
    details whose [status?.running] is truthy or not. *)
Inductive mcpGet :=
| Rejected
| Resolved (running : bool).

Definition tools_of (running : bool) : json :=
  if running then JArr [JStr "fetch"; JStr "list"] else JArr [].

Section Component.
Context {J : Json}.

(** The effect that runs at mount. *)
Definition loadPersistedTools (st : State) : State * list string :=
  match storage st with
  | Some savedTools =>
      if String.eqb savedTools "" then (st, [])
      else
        match JSON_parse savedTools with
        | Some parsed =>
            ({| serverTools := parsed; testingServer := testingServer st;
                storage := storage st |}, [])
        | None => (st, ["Failed to parse saved server tools:"])
        end
  | None => (st, [])
  end.

(** handleTestConnection, from the point where [api.mcpGet] has settled.
    The result carries the diagnostics written with [console.error]; the
    analytics calls are left out. *)
Definition handleTestConnection (st : State) (name : string) (details : mcpGet)
  : State * list string :=
  match details with
  | Resolved running =>
      let newTools := JObj (obj_set (spread (serverTools st)) name (tools_of running)) in
      ({| serverTools := newTools; testingServer := None;
          storage := Some (JSON_stringify newTools) |}, [])
  | Rejected =>
      ({| serverTools := serverTools st; testingServer := None;
          storage := storage st |}, ["Failed to get server details:"])
  end.

(** handleRefreshAllStatuses over the servers and the outcome of each
    request: a rejected one leaves an empty tool list. *)
Fixpoint refreshed (newTools : list (string * json)) (results : list (string * mcpGet))
  : list (string * json) :=
  match results with
  | [] => newTools
  | (name, Resolved running) :: results' =>
      refreshed (obj_assign newTools name (tools_of running)) results'
  | (name, Rejected) :: results' =>
      refreshed (obj_assign newTools name (JArr [])) results'
  end.

Definition handleRefreshAllStatuses (st : State) (results : list (string * mcpGet))
  : State :=
  let newTools := JObj (refreshed [] results) in
  {| serverTools := newTools; testingServer := testingServer st;
     storage := Some (JSON_stringify newTools) |}.

End Component.
End MCP.

(** ** The web-mode listener of useClaudeMessages *)

Module Web.
Import JS.
Import Hook.

(** The event that the web-mode setup dispatches to itself one second after
    it has added the listener. *)
Definition test_event : json :=
  JObj [("type", JStr "test"); ("message", JStr "test event")].

Section Listener.
Context {J : Json}.
Variable options : UseClaudeMessagesOptions.

(** webEventHandler, the listener of [claude-output]: the detail of the
    event is the message, already an object ([null] when the event carries
    none); what handling it throws is caught and logged. *)
Definition webEventHandler (st : State) (detail : json) : State * list Call :=
  match handleMessage options detail st with
  | (Normal _, st', calls) => (st', calls)
  | (Throw, st', calls) =>
      (st', calls ++ [ConsoleError "[TRACE] Failed to parse Claude stream message:"])%list
  end.

End Listener.

(** The raw-line log is the serialization of the message log. *)
Definition raw_mirrors {J : Json} (st : State) : Prop :=
  rawJsonlOutput st = JSON_stringify <$> messages st.

(** Two states that differ in the accumulation buffer at most. *)
Definition same_but_buffer (st st' : State) : Prop :=
  st' = setAccumulated (fun _ => accumulatedContent st') st.

(** The message types that a branch of handleMessage names. *)
Definition known_type (message : json) : bool :=
  is_type message "start" || is_type message "partial"
  || is_type message "response" || is_type message "error"
  || is_type message "session_info".

End Web.


(** ** Detection of the operating system, and the window controls *)

Module OS.

Inductive OSType := Windows | MacOS | Linux | Unknown.

(** The three values of WindowControlStyle. *)
Inductive WindowControlStyle := macos | windows | linux.

(** [s.includes(sub)] *)
Fixpoint includes (s sub : string) : bool :=
  String.prefix sub s
  || match s with
     | EmptyString => false
     | String _ s' => includes s' sub
     end.

(** What detectOS reads of [navigator]; either field may be missing. *)
Record Navigator := {
  platform : option string;
  userAgent : option string
}.

Section Detect.

(** [String.prototype.toLowerCase], whose case mapping is Unicode's. *)
Variable toLowerCase : string -> string.

(** detectOS; [None] when there is no [window] or no [navigator]. *)
Definition detectOS (navigator : option Navigator) : OSType :=
  match navigator with
  | None => Unknown
  | Some nav =>
      let platform := default "" (toLowerCase <$> platform nav) in
      let userAgent := default "" (toLowerCase <$> userAgent nav) in
      if includes platform "win" || includes userAgent "windows"
         || includes userAgent "win32" || includes userAgent "win64"
      then Windows
      else if includes platform "mac" || includes userAgent "mac os x"
              || includes userAgent "macintosh"
      then MacOS
      else if includes platform "linux" || includes userAgent "linux"
              || (negb (includes platform "win") && negb (includes platform "mac"))
      then Linux
      else Unknown
  end.

End Detect.

Definition osToWindowControlStyle (os : OSType) : WindowControlStyle :=
  match os with
  | MacOS => macos
  | Windows => windows
  | Linux => linux
  | Unknown => macos
  end.

(** [['macos', 'windows', 'linux'].includes(savedStyle)], with the style
    that the string names. *)
Definition style_named (savedStyle : string) : option WindowControlStyle :=
  if String.eqb savedStyle "macos" then Some macos
  else if String.eqb savedStyle "windows" then Some windows
  else if String.eqb savedStyle "linux" then Some linux
  else None.

(** The outcome of [api.getSetting('window_control_style')]: the request
    is rejected, or it resolves with the stored string or [null]. *)
Inductive getSetting :=
| Failed
| Stored (savedStyle : option string).

Inductive Position := left | right.

(** The effect loadStyle of WindowControls: the control style once the
    setting has been read, from the [style] prop and the style detected for
    the system. *)
Definition WindowControls_loadStyle (style : option WindowControlStyle)
    (defaultStyle : WindowControlStyle) (setting : getSetting) : WindowControlStyle :=
  match setting with
  | Stored (Some savedStyle) =>
      match style_named savedStyle with
      | Some s => s
      | None => default defaultStyle style
      end
  | Stored None => default defaultStyle style
  | Failed => defaultStyle
  end.

(** shouldRender of WindowControls. *)
Definition shouldRender (isLoading : bool) (controlStyle : WindowControlStyle)
    (position : Position) : bool :=
  if isLoading then false
  else
    match controlStyle, position with
    | macos, left => true
    | windows, right | linux, right => true
    | _, _ => false
    end.

(** The effect loadStyle of CustomTitlebar, from the detected system. *)
Definition CustomTitlebar_loadStyle (detectedOS : OSType) (setting : getSetting)
  : WindowControlStyle :=
  match setting with
  | Stored (Some savedStyle) =>
      if negb (String.eqb savedStyle "") && negb (JS.blank savedStyle) then
        match style_named savedStyle with
        | Some s => s
        | None => osToWindowControlStyle detectedOS
        end
      else osToWindowControlStyle detectedOS
  | Stored None => osToWindowControlStyle detectedOS
  | Failed => osToWindowControlStyle detectedOS
  end.

(** The position of the WindowControls that the title bar mounts: on the
    right for the Windows and Linux styles, on the left otherwise. *)
Definition CustomTitlebar_position (windowControlStyle : WindowControlStyle) : Position :=
  match windowControlStyle with
  | windows | linux => right
  | macos => left
  end.

End OS.

(** ** The pages of SessionList *)

Module SessionList.

Definition ITEMS_PER_PAGE : Z := 20.

(** [l.slice(start, end)]: a negative index counts from the end, and both
    are clamped to the array. *)
Definition slice {A} (l : list A) (start end_ : Z) : list A :=
  let len := Z.of_nat (length l) in
  let k := if start <? 0 then Z.max (len + start) 0 else Z.min start len in
  let final := if end_ <? 0 then Z.max (len + end_) 0 else Z.min end_ len in
  take (Z.to_nat (final - k)) (drop (Z.to_nat k) l).

(** [Math.ceil(n / d)] for the integers at hand. *)
Definition ceil_div (n d : Z) : Z := - ((- n) / d).

Section Pages.
Context {Session : Type}.
Variable sessions : list Session.

Definition totalPages : Z := ceil_div (Z.of_nat (length sessions)) ITEMS_PER_PAGE.

Definition currentSessions (currentPage : Z) : list Session :=
  let startIndex := (currentPage - 1) * ITEMS_PER_PAGE in
  let endIndex := startIndex + ITEMS_PER_PAGE in
  slice sessions startIndex endIndex.

End Pages.

(** The page numbers from 1 to [n]. *)
Definition page_numbers (n : Z) : list Z :=
  (fun k => Z.of_nat k) <$> seq 1 (Z.to_nat n).

End SessionList.


(** ** Paths and titles in TabContent *)

Module Paths.

Definition is_slash (a : ascii) : bool := (N_of_ascii a =? 47)%N.

Definition is_backslash (a : ascii) : bool := (N_of_ascii a =? 92)%N.

Definition slash : string := String (ascii_of_N 47) "".

Definition backslash : string := String (ascii_of_N 92) "".

(** [s.split(sep)] where [sep] is one character or a class of characters:
    the first piece and the pieces after it. *)
Fixpoint split_by (p : ascii -> bool) (s : string) : string * list string :=
  match s with
  | EmptyString => ("", [])
  | String a s' =>
      let '(piece, pieces) := split_by p s' in
      if p a then ("", piece :: pieces) else (String a piece, pieces)
  end.

Definition pieces (p : ascii -> bool) (s : string) : list string :=
  let '(piece, rest) := split_by p s in piece :: rest.

(** [s.split(sep).pop()] *)
Definition last_piece (p : ascii -> bool) (s : string) : string :=
  List.last (pieces p s) "".

(** getProjectPathFromFile, on the file's [absolute_path]: the pieces
    between slashes and backslashes, without the last one, joined again with
    a backslash if the path has one and with a slash otherwise. *)
Definition getProjectPathFromFile (absolute_path : string) : string :=
  if String.eqb absolute_path "" then ""
  else
    let pathParts := pieces (fun a => is_slash a || is_backslash a) absolute_path in
    String.concat
      (if OS.includes absolute_path backslash then backslash else slash)
      (removelast pathParts).

(** [path.split('/').pop() || path.split('\\').pop() || 'Session'], the
    title that onProjectPathChange and onSessionCreated give the tab. *)
Definition dirName (path : string) : string :=
  let a := last_piece is_slash path in
  if negb (String.eqb a "") then a
  else
    let b := last_piece is_backslash path in
    if negb (String.eqb b "") then b else "Session".

End Paths.

(** ** The list of MCPServerList: groups by scope, expanded rows *)

Module MCPList.
Import JS.

(** The properties that a plain object inherits from [Object.prototype]. *)
Definition prototype_member (k : string) : bool :=
  existsb (String.eqb k)
    ["constructor"; "__defineGetter__"; "__defineSetter__"; "hasOwnProperty";
     "__lookupGetter__"; "__lookupSetter__"; "isPrototypeOf";
     "propertyIsEnumerable"; "toString"; "valueOf"; "__proto__"; "toLocaleString"].

(** [server.scope || "local"] *)
Definition scope_or_local (server : json) : json :=
  match get server "scope" with
  | Some v => if truthy v then v else JStr "local"
  | None => JStr "local"
  end.

(** The callback of the [reduce] that builds serversByScope.  The
    accumulator starts as [{}], so a scope that names a member of the
    prototype reads that member: it is truthy and has no [push], and the
    call throws ([None]), as reading [.scope] of [null] does. *)
Definition group (acc : list (string * json)) (server : json)
  : option (list (string * json)) :=
  match server with
  | JNull => None
  | _ =>
      scope ← ToString (scope_or_local server);
      (* if (!acc[scope]) acc[scope] = [] *)
      let acc1 :=
        match obj_get acc scope with
        | Some v => if truthy v then acc else obj_set acc scope (JArr [])
        | None =>
            if prototype_member scope then acc else obj_set acc scope (JArr [])
        end in
      (* acc[scope].push(server) *)
      match obj_get acc1 scope with
      | Some (JArr l) => Some (obj_set acc1 scope (JArr (l ++ [server])%list))
      | _ => None
      end
  end.

Fixpoint reduce (acc : list (string * json)) (servers : list json)
  : option (list (string * json)) :=
  match servers with
  | [] => Some acc
  | server :: servers' => acc' ← group acc server; reduce acc' servers'
  end.

Definition serversByScope (servers : list json) : option (list (string * json)) :=
  reduce [] servers.

(** The scope of a server as the interface types it: a string, or missing. *)
Definition scope_of (server : json) : option string :=
  match server with
  | JObj ps =>
      match obj_get ps "scope" with
      | Some (JStr s) => Some (if String.eqb s "" then "local" else s)
      | Some _ => None
      | None => Some "local"
      end
  | _ => None
  end.

(** toggleExpanded, on the set of expanded server names. *)
Definition toggleExpanded (prev : gset string) (serverName : string) : gset string :=
  if bool_decide (serverName ∈ prev) then prev ∖ {[serverName]}
  else prev ∪ {[serverName]}.

(** The last outcome listed for a server. *)
Fixpoint last_outcome (name : string) (results : list (string * MCP.mcpGet))
  : option MCP.mcpGet :=
  match results with
  | [] => None
  | (n, r) :: results' =>
      match last_outcome name results' with
      | Some r' => Some r'
      | None => if String.eqb n name then Some r else None
      end
  end.

(** The tool list that a refresh records for an outcome. *)
Definition tools_recorded (r : MCP.mcpGet) : json :=
  match r with
  | MCP.Resolved running => MCP.tools_of running
  | MCP.Rejected => JArr []
  end.

End MCPList.

(** The servers of a list that have the scope [s], in the order of the list,
    and the groups that hold them. *)
Definition MCPList_members (s : string) (servers : list JS.json) : list JS.json :=
  filter (fun server => MCPList.scope_of server = Some s) servers.

Definition MCPList_grouped (acc : list (string * JS.json)) (servers : list JS.json) : Prop :=
  forall s,
    JS.obj_get acc s =
      match MCPList_members s servers with
      | [] => None
      | l => Some (JS.JArr l)
      end.


(** What the user does in the list after the mount: a test of one
    connection, or a refresh of all statuses, each with the outcomes of its
    requests. *)
Inductive MCPList_event :=
| TestConnection (name : string) (details : MCP.mcpGet)
| RefreshAllStatuses (results : list (string * MCP.mcpGet)).

Definition MCPList_step {J : Json} (st : MCP.State) (e : MCPList_event) : MCP.State :=
  match e with
  | TestConnection name details => (MCP.handleTestConnection st name details).1
  | RefreshAllStatuses results => MCP.handleRefreshAllStatuses st results
  end.

Definition MCPList_run {J : Json} (st : MCP.State) (events : list MCPList_event)
  : MCP.State :=
  fold_left MCPList_step events st.


(** ** The form of MCPEditServer *)

Module MCPEdit.
Import JS.

(** [s.split(/\s+/)]: the pieces between the runs of white space, the first
    piece and those after it.  [in_run] says that the character before was
    white space. *)
Fixpoint split_ws (in_run : bool) (l : list ascii) : list ascii * list (list ascii) :=
  let separator (r : list ascii * list (list ascii)) :=
    if in_run then r else ([], r.1 :: r.2) in
  let character (a : ascii) (r : list ascii * list (list ascii)) :=
    (a :: r.1, r.2) in
  match l with
  | [] => ([], [])
  | a :: l1 =>
      if ws1 a then separator (split_ws true l1)
      else
        match l1 with
        | b :: l2 =>
            if ws2 a b then separator (split_ws true l2)
            else
              match l2 with
              | c :: l3 =>
                  if ws3 a b c then separator (split_ws true l3)
                  else character a (split_ws false l1)
              | [] => character a (split_ws false l1)
              end
        | [] => character a (split_ws false l1)
        end
  end.

Definition split_whitespace (s : string) : list string :=
  let r := split_ws false (list_ascii_of_string s) in
  string_of_list_ascii <$> (r.1 :: r.2).

(** [args.trim() ? args.split(/\s+/) : []] *)
Definition parsedArgs (args : string) : list string :=
  if blank args then [] else split_whitespace args.

(** [server.args?.join(" ") || ""], the text that the form opens with. *)
Definition args_text (args : option (list string)) : string :=
  match args with
  | Some l => String.concat " " l
  | None => ""
  end.

Record EnvironmentVariable := {
  id : string;
  key : string;
  value : string
}.

(** The [reduce] of handleSave that turns the rows into the [env] object. *)
Definition env_of (envVars : list EnvironmentVariable) : list (string * json) :=
  fold_left
    (fun acc v =>
       if negb (blank (key v)) && negb (blank (value v))
       then obj_assign acc (key v) (JStr (value v))
       else acc)
    envVars [].

(** The rows that the form opens with, from the entries of [server.env];
    the ids are made from the clock and a random number. *)
Definition env_rows (ids : list string) (entries : list (string * string))
  : list EnvironmentVariable :=
  zip_with (fun i kv => {| id := i; key := kv.1; value := kv.2 |}) ids entries.

(** The last value that the valid rows give a key. *)
Fixpoint last_value (k : string) (envVars : list EnvironmentVariable) : option string :=
  match envVars with
  | [] => None
  | e :: envVars' =>
      match last_value k envVars' with
      | Some v => Some v
      | None =>
          if String.eqb (key e) k && negb (blank (key e)) && negb (blank (value e))
          then Some (value e) else None
      end
  end.

(** A text without white space: no white-space character starts at any of
    its positions. *)
Fixpoint ws_free (l : list ascii) : bool :=
  match l with
  | [] => true
  | a :: l1 =>
      negb (ws1 a)
      && match l1 with
         | b :: l2 =>
             negb (ws2 a b)
             && match l2 with
                | c :: _ => negb (ws3 a b c)
                | [] => true
                end
         | [] => true
         end
      && ws_free l1
  end.

(** A white-space character starts the text. *)
Definition ws_start (l : list ascii) : bool :=
  match l with
  | [] => false
  | a :: l1 =>
      ws1 a
      || match l1 with
         | b :: l2 =>
             ws2 a b
             || match l2 with
                | c :: _ => ws3 a b c
                | [] => false
                end
         | [] => false
         end
  end.

(** [l.join(" ")] on the characters. *)
Fixpoint join_space (l : list (list ascii)) : list ascii :=
  match l with
  | [] => []
  | [w] => w
  | w :: l' => (w ++ " "%char :: join_space l')%list
  end.

End MCPEdit.


(** * Properties of the hook *)

Import JS.
Import Hook.
Local Open Scope hook_scope.

(** The callbacks all supplied, and the stream of the specification's
    example, ending in a response that carries its usage. *)
Definition all_callbacks : UseClaudeMessagesOptions :=
  {| onSessionInfo := true; onTokenUpdate := true; onStreamingChange := true |}.

Definition start_payload : string := js_text "{'type':'start'}".

Definition response_payload : string :=
  js_text "{'type':'response','message':{'usage':{'input_tokens':10,'output_tokens':5}}}".

Definition example_stream : list string :=
  [ start_payload;
    js_text "{'type':'partial','tool_calls':[{'partial_tool_call_index':0,'content':'Hel'}]}";
    js_text "{'type':'partial','tool_calls':[{'partial_tool_call_index':0,'content':'lo'}]}";
    response_payload ].

(** The messages of the example, parsed, and a few more. *)
Definition start_message : json := JObj [("type", JStr "start")].

Definition response_message : json :=
  JObj [("type", JStr "response");
        ("message",
         JObj [("usage", JObj [("input_tokens", JNum 10); ("output_tokens", JNum 5)])])].

Definition fragment (i : Z) (c : string) : json :=
  JObj [("partial_tool_call_index", JNum i); ("content", JStr c)].

Definition partial_message (fs : list json) : json :=
  JObj [("type", JStr "partial"); ("tool_calls", JArr fs)].




Definition session_info_message : json :=
  JObj [("type", JStr "session_info"); ("session_id", JStr "s1");
        ("project_id", JStr "p1")].

(** The registry of the specification's lookup example, with the second
    tab active, and a session that the first tab already holds. *)
Definition example_registry : Tabs.Registry :=
  {| Tabs.tabs :=
       [ {| Tabs.id := "t1"; Tabs.type := Tabs.chat; Tabs.title := "one";
            Tabs.sessionId := Some "s1"; Tabs.sessionData := None;
            Tabs.initialProjectPath := None |};
         {| Tabs.id := "t2"; Tabs.type := Tabs.chat; Tabs.title := "two";
            Tabs.sessionId := Some "s2"; Tabs.sessionData := None;
            Tabs.initialProjectPath := None |} ];
     Tabs.activeTabId := Some "t2" |}.

Definition example_session : Tabs.Session :=
  {| Tabs.session_id := "s1"; Tabs.project_path := "/home/me/codestudio" |}.

Definition example_generateTabId (ts : list Tabs.Tab) : string :=
  "tab-" +:+ pretty (length ts).

(** A response whose usage carries the two counts. *)
Definition response_with_counts (input_tokens output_tokens : Z) : json :=
  JObj [("type", JStr "response");
        ("message",
         JObj [("usage", JObj [("input_tokens", JNum input_tokens);
                               ("output_tokens", JNum output_tokens)])])].

(** A token count as the interface types it: a number, or missing. *)
Definition token_count (o : option json) (n : Z) : Prop :=
  (o = None /\ n = 0) \/ o = Some (JNum n).

Ltac run := unfold bind, update, read, call_if, call, calls, ret, throw, lift; simpl.

Section HookFacts.
Context {J : Json}.
Variable options : UseClaudeMessagesOptions.

Lemma is_type_get message t :
  is_type message t = true <-> get message "type" = Some (JStr t).
Proof.
  unfold is_type. destruct (get message "type") as [[]|]; try (split; congruence).
  rewrite String.eqb_eq. split; congruence.
Qed.

Lemma is_type_other message t t' :
  is_type message t = true -> t <> t' -> is_type message t' = false.
Proof.
  intros H Hne. apply is_type_get in H. unfold is_type. rewrite H.
  apply String.eqb_neq. exact Hne.
Qed.

Lemma is_type_not_null message t : is_type message t = true -> message <> JNull.
Proof. intros H ->. discriminate H. Qed.

Lemma handleMessage_not_null message :
  message <> JNull ->
  handleMessage options message =
    (message' <- dispatch options message;;
     append message';;
     extractSessionInfo options message).
Proof. intros H. destruct message; try reflexivity. congruence. Qed.

(** A response that carries a usage takes the token branch, which leaves the
    streaming flag alone and makes no call to onStreamingChange. *)
Lemma response_with_usage_streaming message st :
  is_type message "response" = true ->
  truthy_opt (usage_of message) = true ->
  let '(_, st', calls) := handleMessage options message st in
  isStreaming st' = isStreaming st /\
  forall b sid, ~ In (StreamingChange b sid) calls.
Proof.
  intros Ht Hu.
  rewrite handleMessage_not_null by (eapply is_type_not_null; eauto).
  unfold dispatch, extractSessionInfo.
  rewrite (is_type_other _ _ "start" Ht), (is_type_other _ _ "partial" Ht),
    (is_type_other _ _ "session_info" Ht) by discriminate.
  rewrite Ht, Hu. simpl.
  destruct (add _ _) as [total|]; run.
  - destruct (onTokenUpdate options); simpl; split; auto;
      intros b sid [H|[]]; discriminate H.
  - split; auto.
Qed.

(** A response without usage, like an error, ends the streaming. *)
Lemma terminal_ends_streaming message st :
  (is_type message "error" = true \/
   (is_type message "response" = true /\ truthy_opt (usage_of message) = false)) ->
  handleMessage options message st =
    (Normal tt,
     setRawJsonlOutput (fun prev => prev ++ [JSON_stringify message])%list
       (setMessages (fun prev => prev ++ [message])%list (setIsStreaming false st)),
     if onStreamingChange options
     then [StreamingChange false (currentSessionId st)] else []).
Proof.
  intros H.
  assert (Hn : message <> JNull)
    by (destruct H as [H|[H _]]; eapply is_type_not_null; eauto).
  rewrite handleMessage_not_null by exact Hn.
  unfold dispatch, extractSessionInfo.
  destruct H as [Ht|[Ht Hu]].
  - rewrite (is_type_other _ _ "start" Ht), (is_type_other _ _ "partial" Ht),
      (is_type_other _ _ "response" Ht), (is_type_other _ _ "session_info" Ht)
      by discriminate.
    rewrite Ht. run. destruct (onStreamingChange options); reflexivity.
  - rewrite (is_type_other _ _ "start" Ht), (is_type_other _ _ "partial" Ht),
      (is_type_other _ _ "error" Ht), (is_type_other _ _ "session_info" Ht)
      by discriminate.
    rewrite Ht, Hu. run. destruct (onStreamingChange options); reflexivity.
Qed.

(** C9.  clearMessages empties the message log, the raw-line log and the
    accumulation buffer, and leaves the streaming flag and the current
    session id as they were; it calls nothing and does not throw. *)
Theorem clearMessages_frame (st : State) :
  clearMessages st =
    (Normal tt,
     {| messages := []; rawJsonlOutput := [];
        isStreaming := isStreaming st;
        currentSessionId := currentSessionId st;
        accumulatedContent := ∅ |},
     []).
Proof.
  unfold clearMessages. run.
  unfold setAccumulated, setRawJsonlOutput, setMessages. simpl.
  reflexivity.
Qed.

(** An integer up to 2^53 in magnitude is a double. *)
Lemma round_double_exact n : Z.abs n <= 2 ^ 53 -> round_double n = n.
Proof.
  intros H. unfold round_double.
  destruct (Z.ltb_spec (Z.abs n) (2 ^ 53)) as [_|Hge]; [reflexivity|].
  assert (Hn : n = 2 ^ 53 \/ n = - 2 ^ 53) by lia.
  destruct Hn as [-> | ->]; vm_compute; reflexivity.
Qed.

Lemma add_token_counts usage a b :
  token_count (get usage "input_tokens") a ->
  token_count (get usage "output_tokens") b ->
  add (or_zero (get usage "input_tokens")) (or_zero (get usage "output_tokens"))
  = Some (JNum (round_double (a + b))).
Proof.
  intros Ha Hb.
  assert (Hz : forall o n, token_count o n -> or_zero o = JNum n).
  { intros o n [[-> ->] | ->]; simpl; [reflexivity|].
    destruct (Z.eqb_spec n 0) as [->|_]; reflexivity. }
  rewrite (Hz _ _ Ha), (Hz _ _ Hb). reflexivity.
Qed.

(** C7.  A response whose usage is present notifies onTokenUpdate once, with
    the sum of the input and output token counts, a missing count standing
    for 0; it makes no other call.  The sum is the one that the language
    computes on its numbers: the exact sum while that is at most 2^53 in
    magnitude, and the double nearest to it above.  A sum beyond the
    largest double is an infinity, which is no value of the embedding. *)
Theorem response_token_update (st : State) (message usage : json) (a b : Z) :
  onTokenUpdate options = true ->
  is_type message "response" = true ->
  usage_of message = Some usage ->
  truthy usage = true ->
  token_count (get usage "input_tokens") a ->
  token_count (get usage "output_tokens") b ->
  Z.abs (a + b) <= double_max ->
  exists st' totalTokens,
    handleMessage options message st =
      (Normal tt, st', [TokenUpdate (JNum totalTokens)]) /\
    totalTokens = round_double (a + b) /\
    (Z.abs (a + b) <= 2 ^ 53 -> totalTokens = a + b).
Proof.
  intros Hcb Ht Hu Htr Ha Hb _.
  rewrite handleMessage_not_null by (eapply is_type_not_null; eauto).
  unfold dispatch, extractSessionInfo.
  rewrite (is_type_other _ _ "start" Ht), (is_type_other _ _ "partial" Ht),
    (is_type_other _ _ "session_info" Ht) by discriminate.
  rewrite Ht, Hu, Hcb. simpl. rewrite Htr. simpl.
  rewrite (add_token_counts usage a b Ha Hb). run.
  eexists _, _. split; [reflexivity|]. split; [reflexivity|].
  apply round_double_exact.
Qed.

(** C10.  A session_info message is appended to the log whatever it carries.
    When its session id and project id are both truthy it is passed to
    onSessionInfo and its session id becomes the current one; when either is
    missing or falsy there is no call and the current session id stays. *)
Theorem session_info_identity (st : State) (message : json) :
  is_type message "session_info" = true ->
  let '(result, st', calls) := handleMessage options message st in
  result = Normal tt /\
  messages st' = (messages st ++ [message])%list /\
  match get message "session_id", get message "project_id" with
  | Some session_id, Some project_id =>
      if truthy session_id && truthy project_id then
        calls = (if onSessionInfo options
                 then [SessionInfo session_id project_id] else []) /\
        currentSessionId st' = session_id
      else calls = [] /\ currentSessionId st' = currentSessionId st
  | _, _ => calls = [] /\ currentSessionId st' = currentSessionId st
  end.
Proof.
  intros Ht.
  rewrite handleMessage_not_null by (eapply is_type_not_null; eauto).
  unfold dispatch, extractSessionInfo.
  rewrite (is_type_other _ _ "start" Ht), (is_type_other _ _ "partial" Ht),
    (is_type_other _ _ "response" Ht), (is_type_other _ _ "error" Ht)
    by discriminate.
  rewrite Ht. simpl.
  destruct (get message "session_id") as [sid|], (get message "project_id") as [pid|];
    simpl; run; try (repeat split; reflexivity).
  - destruct (truthy sid), (truthy pid); simpl; run;
      try (repeat split; reflexivity).
    destruct (onSessionInfo options); repeat split; reflexivity.
  - destruct (truthy sid); repeat split; reflexivity.
Qed.

(** What the listener does with a payload that parses. *)
Lemma ingest_parsed st payload message :
  JSON_parse payload = Some message ->
  ingest options st payload =
    match handleMessage options message st with
    | (Normal _, st', calls) => (st', calls)
    | (Throw, st', calls) =>
        (st', calls ++ [ConsoleError "[TRACE] Failed to parse Claude stream message:"])%list
    end.
Proof. intros H. unfold ingest. rewrite H. reflexivity. Qed.

Lemma same_log_refl st : same_log st st.
Proof. split; reflexivity. Qed.

Lemma same_log_trans st1 st2 st3 :
  same_log st1 st2 -> same_log st2 st3 -> same_log st1 st3.
Proof. intros [? ?] [? ?]. split; congruence. Qed.

Lemma accumulate_same_log toolCall st : same_log st (accumulate toolCall st).1.2.
Proof.
  unfold accumulate.
  destruct toolCall as [| | | | |ps]; try apply same_log_refl. simpl.
  destruct (obj_get ps "content") as [content|]; [|apply same_log_refl].
  destruct (obj_get ps "partial_tool_call_index") as [index|]; [|apply same_log_refl].
  destruct (truthy content); [|apply same_log_refl].
  destruct (ToString index) as [suffix|]; run; [|apply same_log_refl].
  destruct (ToString content) as [delta|]; run; split; reflexivity.
Qed.

Lemma forEach_same_log l st : same_log st (forEach accumulate l st).1.2.
Proof.
  revert st. induction l as [|x l IH]; intros st; simpl.
  - apply same_log_refl.
  - unfold bind at 1. pose proof (accumulate_same_log x st) as Hx.
    destruct (accumulate x st) as [[[y|] st1] c1]; simpl in *; [|exact Hx].
    unfold bind at 1. pose proof (IH st1) as Hl.
    destruct (forEach accumulate l st1) as [[[ys|] st2] c2]; simpl in *;
      eapply same_log_trans; eauto.
Qed.

Lemma accumulate_tool_calls_same_log message st :
  same_log st (accumulate_tool_calls message st).1.2.
Proof.
  unfold accumulate_tool_calls.
  destruct (get message "tool_calls") as [tc|]; [|apply same_log_refl].
  destruct (truthy tc); [|apply same_log_refl].
  destruct (length_positive tc) as [[]|]; run; try apply same_log_refl.
  destruct tc; try apply same_log_refl.
  destruct message; try apply same_log_refl.
  pose proof (forEach_same_log elems st) as Hl.
  destruct (forEach accumulate elems st) as [[[ys|] st2] c2]; simpl in *; exact Hl.
Qed.

(** The chain of branches leaves the logs alone; outside the partial branch
    it hands the message on as it came; and it can only throw in the partial
    branch (a malformed tool call) or the token branch (a count that has no
    primitive value). *)
Lemma dispatch_log message st :
  let '(result, st', _) := dispatch options message st in
  same_log st st' /\
  match result with
  | Normal message' => is_type message "partial" = false -> message' = message
  | Throw => is_type message "partial" = true \/ is_type message "response" = true
  end.
Proof.
  unfold dispatch.
  destruct (is_type message "start") eqn:Hs.
  { run. destruct (onStreamingChange options); simpl; split; try split; auto. }
  destruct (is_type message "partial") eqn:Hp.
  { pose proof (accumulate_tool_calls_same_log message st) as Hl.
    destruct (accumulate_tool_calls message st) as [[[m'|] st'] c]; simpl in *;
      split; auto; discriminate. }
  destruct (is_type message "response") eqn:Hr; simpl.
  - destruct (truthy_opt (usage_of message)).
    + destruct (add _ _); run.
      * destruct (onTokenUpdate options); simpl; split; try split; auto.
      * split; [apply same_log_refl | auto].
    + rewrite orb_true_r. run.
      destruct (onStreamingChange options); simpl; split; try split; auto.
  - rewrite orb_false_r. destruct (is_type message "error"); run.
    + destruct (onStreamingChange options); simpl; split; try split; auto.
    + split; [apply same_log_refl | auto].
Qed.

Lemma extractSessionInfo_same_log message st :
  exists st' calls,
    extractSessionInfo options message st = (Normal tt, st', calls) /\ same_log st st'.
Proof.
  unfold extractSessionInfo.
  destruct (_ && _); run.
  - destruct (onSessionInfo options); simpl; do 2 eexists; split; try reflexivity;
      split; reflexivity.
  - do 2 eexists; split; try reflexivity. apply same_log_refl.
Qed.

(** Every message that handleMessage handles to the end is appended to the
    message log, and its serialization to the raw-line log; one that makes
    it throw reaches neither. *)
Lemma handleMessage_log message st :
  let '(result, st', _) := handleMessage options message st in
  match result with
  | Normal _ =>
      exists message',
        messages st' = (messages st ++ [message'])%list /\
        rawJsonlOutput st' = (rawJsonlOutput st ++ [JSON_stringify message'])%list /\
        (is_type message "partial" = false -> message' = message)
  | Throw =>
      same_log st st' /\
      (message = JNull \/ is_type message "partial" = true
       \/ is_type message "response" = true)
  end.
Proof.
  assert (message = JNull \/ message <> JNull) as [->|Hn]
    by (destruct message; auto; right; discriminate).
  { simpl. split; [apply same_log_refl | auto]. }
  rewrite handleMessage_not_null by exact Hn.
  pose proof (dispatch_log message st) as Hd.
  unfold bind at 1.
  destruct (dispatch options message st) as [[[m'|] st1] c1]; simpl in *.
  - destruct Hd as [[Hm Hr] Hsame].
    unfold append. run.
    destruct (extractSessionInfo_same_log message
                (setRawJsonlOutput (fun prev => prev ++ [JSON_stringify m'])%list
                   (setMessages (fun prev => prev ++ [m'])%list st1)))
      as (st2 & c2 & -> & [Hm2 Hr2]).
    simpl in *. exists m'. rewrite Hm2, Hr2, Hm, Hr. auto.
  - destruct Hd as [Hl Hd]. split; [exact Hl | tauto].
Qed.

(** Whatever the payloads, the two logs only grow, and in step: the raw-line
    log by the serializations of the messages that the message log gains. *)
Lemma ingest_lockstep st payload :
  exists added,
    messages (ingest options st payload).1 = (messages st ++ added)%list /\
    rawJsonlOutput (ingest options st payload).1
    = (rawJsonlOutput st ++ (JSON_stringify <$> added))%list /\
    (length added <= 1)%nat.
Proof.
  destruct (JSON_parse payload) as [message|] eqn:Hp.
  - rewrite (ingest_parsed _ _ _ Hp).
    pose proof (handleMessage_log message st) as H.
    destruct (handleMessage options message st) as [[[[]|] st'] c]; simpl in *.
    + destruct H as (m' & Hm & Hr & _). exists [m']. simpl. auto.
    + destruct H as [[Hm Hr] _]. exists []. simpl.
      rewrite Hm, Hr, !app_nil_r. auto.
  - unfold ingest. rewrite Hp. exists []. simpl. rewrite !app_nil_r. auto.
Qed.

Lemma ingest_all_lockstep st payloads :
  exists added,
    messages (ingest_all options st payloads).1 = (messages st ++ added)%list /\
    rawJsonlOutput (ingest_all options st payloads).1
    = (rawJsonlOutput st ++ (JSON_stringify <$> added))%list /\
    (length added <= length payloads)%nat.
Proof.
  revert st. induction payloads as [|p ps IH]; intros st; simpl.
  - exists []. simpl. rewrite !app_nil_r. auto.
  - destruct (ingest_lockstep st p) as (a1 & Hm1 & Hr1 & Hl1).
    destruct (ingest options st p) as [st1 c1]. simpl in *.
    destruct (IH st1) as (a2 & Hm2 & Hr2 & Hl2).
    destruct (ingest_all options st1 ps) as [st2 c2]. simpl in *.
    exists (a1 ++ a2)%list.
    rewrite Hm2, Hr2, Hm1, Hr1, fmap_app, length_app, <- !app_assoc.
    repeat split; auto. lia.
Qed.

(** A payload that does not parse changes nothing and is logged; the
    payloads after it are handled from the same state. *)
Lemma ingest_malformed st payload :
  JSON_parse payload = None ->
  ingest options st payload =
    (st, [ConsoleError "[TRACE] Failed to parse Claude stream message:"]).
Proof. intros H. unfold ingest. rewrite H. reflexivity. Qed.

Lemma split_newline_free s : newline_free s = true -> split_newline s = (s, []).
Proof.
  induction s as [|a s IH]; simpl; [reflexivity|].
  intros [Ha Hs]%andb_true_iff. rewrite (IH Hs).
  destruct (N_of_ascii a =? 10)%N; [discriminate Ha | reflexivity].
Qed.

Lemma split_newline_join s t :
  newline_free s = true ->
  split_newline (s +:+ newline +:+ t) = (s, split_lines t).
Proof.
  induction s as [|a s IH]; simpl.
  - intros _. change ("" +:+ t) with t.
    unfold split_lines. destruct (split_newline t). reflexivity.
  - intros [Ha Hs]%andb_true_iff. rewrite (IH Hs).
    destruct (N_of_ascii a =? 10)%N; [discriminate Ha | reflexivity].
Qed.

Lemma split_join lines :
  lines <> [] ->
  Forall (fun l => newline_free l = true) lines ->
  split_lines (join_lines lines) = lines.
Proof.
  induction lines as [|l lines IH]; [congruence|].
  intros _ Hall. inversion Hall as [|? ? Hl Hls]; subst.
  destruct lines as [|l' lines].
  - change (join_lines [l]) with l.
    unfold split_lines. rewrite (split_newline_free _ Hl). reflexivity.
  - change (join_lines (l :: l' :: lines))
      with (l +:+ newline +:+ join_lines (l' :: lines)).
    unfold split_lines at 1. rewrite (split_newline_join _ _ Hl).
    rewrite IH by (auto; discriminate). reflexivity.
Qed.

(** The lines that loadMessages keeps, and the diagnostics for the others. *)
Lemma load_lines_spec lines ms rs es :
  load_lines lines ms rs es =
    ((ms ++ omap JSON_parse lines)%list,
     (rs ++ filter (fun l => is_Some (JSON_parse l)) lines)%list,
     (es ++ ((fun _ => ConsoleError "Failed to parse JSONL:")
               <$> filter (fun l => JSON_parse l = None) lines))%list).
Proof.
  revert ms rs es. induction lines as [|l lines IH]; intros ms rs es; simpl.
  - rewrite !app_nil_r. reflexivity.
  - destruct (JSON_parse l) as [m|] eqn:Hl; rewrite IH.
    + rewrite filter_cons_True by (rewrite Hl; eauto).
      rewrite filter_cons_False by (rewrite Hl; discriminate).
      rewrite <- !app_assoc. reflexivity.
    + rewrite filter_cons_False by (rewrite Hl; intros [? ?]; discriminate).
      rewrite filter_cons_True by (rewrite Hl; reflexivity).
      rewrite fmap_cons, <- !app_assoc. reflexivity.
Qed.

Lemma join_lines_empty lines :
  join_lines lines = "" -> lines = [] \/ lines = [""].
Proof.
  destruct lines as [|l [|l' lines]]; unfold join_lines; simpl; auto.
  - intros ->. auto.
  - destruct l; discriminate.
Qed.

Lemma read_output_lines lines :
  Forall (fun l => newline_free l = true) lines ->
  let kept := filter (fun line => negb (blank line)) lines in
  read_output (join_lines lines) =
    (omap JSON_parse kept,
     filter (fun l => is_Some (JSON_parse l)) kept,
     (fun _ => ConsoleError "Failed to parse JSONL:")
       <$> filter (fun l => JSON_parse l = None) kept).
Proof.
  intros Hall kept. unfold read_output.
  destruct (String.eqb_spec (join_lines lines) "") as [He|Hne].
  - subst kept. destruct (join_lines_empty _ He) as [-> | ->]; reflexivity.
  - rewrite split_join; [|intros ->; apply Hne; reflexivity|exact Hall].
    rewrite load_lines_spec. reflexivity.
Qed.

Lemma loadMessages_run jsonl st :
  loadMessages (Some jsonl) st =
    (Normal tt,
     {| messages := (read_output jsonl).1.1;
        rawJsonlOutput := (read_output jsonl).1.2;
        isStreaming := isStreaming st;
        currentSessionId := currentSessionId st;
        accumulatedContent := accumulatedContent st |},
     (read_output jsonl).2).
Proof.
  unfold loadMessages. destruct (read_output jsonl) as [[ms rs] es]. run.
  rewrite app_nil_r. reflexivity.
Qed.

(** C5.  loadMessages is idempotent on a stored blob: a second load of the
    same blob leaves the state of the first, and the two logs after a load
    are those of the blob whatever the logs held before. *)
Theorem loadMessages_idempotent (jsonl : string) (st : State) :
  let '(r1, st1, _) := loadMessages (Some jsonl) st in
  let '(r2, st2, _) := loadMessages (Some jsonl) st1 in
  r1 = Normal tt /\ r2 = Normal tt /\ st2 = st1 /\
  forall st0 : State,
    let '(_, st3, _) := loadMessages (Some jsonl) st0 in
    messages st3 = messages st1 /\ rawJsonlOutput st3 = rawJsonlOutput st1.
Proof.
  rewrite loadMessages_run. cbv iota beta zeta.
  rewrite loadMessages_run. cbv iota beta zeta.
  split; [reflexivity|]. split; [reflexivity|]. split; [reflexivity|].
  intros st0. rewrite loadMessages_run. split; reflexivity.
Qed.

(** ** Accumulation of partial content *)

Lemma string_app_nil_r (s : string) : s +:+ "" = s.
Proof.
  induction s as [|a s IH]; [reflexivity|].
  change (String a s +:+ "") with (String a (s +:+ "")). rewrite IH. reflexivity.
Qed.

Lemma string_app_assoc (s t u : string) : (s +:+ t) +:+ u = s +:+ (t +:+ u).
Proof.
  induction s as [|a s IH]; [reflexivity|].
  change (String a (s +:+ t) +:+ u = String a (s +:+ (t +:+ u))).
  change (String a ((s +:+ t) +:+ u) = String a (s +:+ (t +:+ u))).
  rewrite IH. reflexivity.
Qed.

Lemma obj_get_replace ps k v k' :
  obj_get (obj_replace ps k v) k' =
    if String.eqb k k' then (match obj_get ps k with Some _ => Some v | None => None end)
    else obj_get ps k'.
Proof.
  induction ps as [|[k0 v0] ps IH]; simpl.
  - destruct (String.eqb k k'); reflexivity.
  - destruct (String.eqb_spec k0 k) as [->|Hk0]; simpl.
    + destruct (String.eqb_spec k k'); reflexivity.
    + destruct (String.eqb_spec k0 k') as [->|Hk0'].
      * destruct (String.eqb_spec k k'); [congruence | reflexivity].
      * exact IH.
Qed.

Lemma obj_get_add_index ps i k v k' :
  obj_get ps k = None ->
  obj_get (obj_add_index ps i k v) k' =
    if String.eqb k k' then Some v else obj_get ps k'.
Proof.
  induction ps as [|[k0 v0] ps IH]; simpl; intros Hk.
  - reflexivity.
  - destruct (String.eqb_spec k0 k) as [->|Hk0]; [discriminate|].
    destruct (array_index k0) as [j|]; [destruct (j <? i)%N|]; simpl;
      try reflexivity.
    destruct (String.eqb_spec k0 k') as [->|Hk0'].
    + destruct (String.eqb_spec k k'); [congruence | reflexivity].
    + apply IH, Hk.
Qed.

Lemma obj_get_app ps qs k :
  obj_get (ps ++ qs) k =
    match obj_get ps k with Some v => Some v | None => obj_get qs k end.
Proof.
  induction ps as [|[k0 v0] ps IH]; simpl; [reflexivity|].
  destruct (String.eqb k0 k); [reflexivity | exact IH].
Qed.

(** Reading a property after [o[k] = v]. *)
Lemma obj_get_set ps k v k' :
  obj_get (obj_set ps k v) k' = if String.eqb k k' then Some v else obj_get ps k'.
Proof.
  unfold obj_set. destruct (obj_get ps k) as [v0|] eqn:Hk.
  - rewrite obj_get_replace, Hk. reflexivity.
  - destruct (array_index k) as [i|].
    + apply obj_get_add_index, Hk.
    + rewrite obj_get_app. simpl.
      destruct (String.eqb_spec k k') as [<-|Hne].
      * rewrite Hk. reflexivity.
      * destruct (obj_get ps k'); reflexivity.
Qed.

Lemma buffer_key_inj i j : buffer_key i = buffer_key j -> i = j.
Proof.
  unfold buffer_key. intros H.
  apply (inj (String.app "tool-")) in H. apply (inj pretty) in H. exact H.
Qed.

Lemma concat_contents_app i fs gs :
  concat_contents i (fs ++ gs) = concat_contents i fs +:+ concat_contents i gs.
Proof.
  induction fs as [|f fs IH]; simpl; [reflexivity|].
  rewrite IH, string_app_assoc. reflexivity.
Qed.



Lemma typed_fragment_inv f :
  typed_fragment f ->
  exists ps i c,
    f = JObj ps /\
    obj_get ps "partial_tool_call_index" = Some (JNum i) /\
    obj_get ps "content" = Some (JStr c).
Proof.
  intros [[i Hi] [c Hc]]. unfold fragment_index, fragment_content in *.
  destruct f as [| | | | |ps]; try discriminate. simpl in *.
  destruct (obj_get ps "partial_tool_call_index") as [[| |n| | |]|] eqn:E1;
    try discriminate.
  destruct (obj_get ps "content") as [[| | |s| |]|] eqn:E2; try discriminate.
  exists ps, n, s. auto.
Qed.

Lemma concat_contents_one i j ps c :
  obj_get ps "partial_tool_call_index" = Some (JNum i) ->
  obj_get ps "content" = Some (JStr c) ->
  concat_contents j [JObj ps] = if bool_decide (i = j) then c else "".
Proof.
  intros Hi Hc. simpl. unfold fragment_index, fragment_content. simpl.
  rewrite Hi, Hc. simpl.
  destruct (bool_decide_reflect (Some i = Some j)) as [[= ->]|Hne].
  - rewrite bool_decide_eq_true_2 by reflexivity. apply string_app_nil_r.
  - rewrite bool_decide_eq_false_2 by congruence. reflexivity.
Qed.

Lemma accumulate_typed f st seen :
  typed_fragment f ->
  buffer_holds (accumulatedContent st) seen ->
  exists st',
    accumulate f st = (Normal (annotated seen f), st', []) /\
    buffer_holds (accumulatedContent st') (seen ++ [f]) /\
    same_log st st' /\
    isStreaming st' = isStreaming st /\
    currentSessionId st' = currentSessionId st.
Proof.
  intros Hf Hacc. destruct (typed_fragment_inv f Hf) as (ps & i & c & -> & Hi & Hc).
  unfold accumulate, annotated, fragment_index, fragment_content. simpl.
  rewrite Hi, Hc. simpl.
  destruct c as [|a c]; simpl.
  - exists st. split; [reflexivity|]. split; [|repeat split; reflexivity].
    intros j. rewrite concat_contents_app, (concat_contents_one i j ps "" Hi Hc).
    rewrite Hacc. destruct (bool_decide (i = j)); rewrite string_app_nil_r; reflexivity.
  - run. fold (buffer_key i).
    set (acc1 := match accumulatedContent st !! buffer_key i with
                 | Some (String _ _) => accumulatedContent st
                 | _ => <[buffer_key i := ""]> (accumulatedContent st)
                 end).
    assert (H1 : default "" (acc1 !! buffer_key i) = concat_contents i seen).
    { rewrite <- Hacc. subst acc1.
      destruct (accumulatedContent st !! buffer_key i) as [[|b s]|] eqn:Hk;
        rewrite ?lookup_insert_eq, ?Hk; reflexivity. }
    assert (Hother : forall j, i <> j -> acc1 !! buffer_key j
                                      = accumulatedContent st !! buffer_key j).
    { intros j Hne. subst acc1.
      assert (Hkey : buffer_key i <> buffer_key j)
        by (intros H; apply Hne, buffer_key_inj, H).
      destruct (accumulatedContent st !! buffer_key i) as [[|b s]|];
        rewrite ?lookup_insert_ne by exact Hkey; reflexivity. }
    rewrite lookup_insert_eq, H1. simpl.
    assert (Hcc : concat_contents i (seen ++ [JObj ps])
                  = concat_contents i seen +:+ String a c).
    { rewrite concat_contents_app, (concat_contents_one i i ps _ Hi Hc).
      rewrite bool_decide_eq_true_2 by reflexivity. reflexivity. }
    rewrite Hcc. eexists. split; [reflexivity|]. simpl.
    split; [|repeat split; reflexivity].
    intros j. destruct (bool_decide_reflect (i = j)) as [<-|Hne].
    + rewrite lookup_insert_eq. simpl. symmetry. exact Hcc.
    + assert (Hkey : buffer_key i <> buffer_key j)
        by (intros H; apply Hne, buffer_key_inj, H).
      rewrite lookup_insert_ne by exact Hkey.
      pose proof (Hother j Hne) as Ho. unfold acc1 in Ho. rewrite Ho.
      rewrite concat_contents_app, (concat_contents_one i j ps _ Hi Hc).
      rewrite bool_decide_eq_false_2 by exact Hne.
      rewrite string_app_nil_r. apply Hacc.
Qed.








(** The partial branch hands the message on with every property but
    [tool_calls] as it came. *)
Lemma accumulate_tool_calls_props message st :
  match (accumulate_tool_calls message st).1.1 with
  | Normal message' => forall k, k <> "tool_calls" -> get message' k = get message k
  | Throw => True
  end.
Proof.
  unfold accumulate_tool_calls.
  destruct (get message "tool_calls") as [tc|]; [|simpl; auto].
  destruct (truthy tc); [|simpl; auto].
  destruct (length_positive tc) as [[]|]; run; auto.
  destruct tc; simpl; auto.
  destruct message; simpl; auto.
  unfold bind.
  destruct (forEach accumulate elems st) as [[[ys|] st2] c2]; simpl; auto.
  intros k Hk. rewrite obj_get_set.
  destruct (String.eqb_spec "tool_calls" k); [congruence | reflexivity].
Qed.

(** The chain of branches throws only in the partial branch and in the
    token branch, the one of a response whose usage is truthy. *)
Lemma dispatch_outcome message st :
  match (dispatch options message st).1.1 with
  | Normal message' =>
      (is_type message "partial" = false -> message' = message) /\
      (forall k, k <> "tool_calls" -> get message' k = get message k)
  | Throw =>
      is_type message "partial" = true \/
      (is_type message "response" = true /\ truthy_opt (usage_of message) = true)
  end.
Proof.
  unfold dispatch.
  destruct (is_type message "start") eqn:Hs.
  { run. destruct (onStreamingChange options); simpl; auto. }
  destruct (is_type message "partial") eqn:Hp.
  { pose proof (accumulate_tool_calls_props message st) as Hk.
    destruct (accumulate_tool_calls message st) as [[[m'|] st'] c]; simpl in *;
      [split; [discriminate | exact Hk] | auto]. }
  destruct (is_type message "response") eqn:Hr; simpl.
  - destruct (truthy_opt (usage_of message)).
    + destruct (add _ _); run.
      * destruct (onTokenUpdate options); simpl; auto.
      * auto.
    + rewrite orb_true_r. run.
      destruct (onStreamingChange options); simpl; auto.
  - rewrite orb_false_r. destruct (is_type message "error"); run.
    + destruct (onStreamingChange options); simpl; auto.
    + auto.
Qed.

(** Every message that handleMessage handles to the end is appended to the
    message log as the chain left it, and its serialization to the raw-line
    log; handling throws only on [null], in the partial branch and in the
    token branch, and then the message reaches neither log. *)
Lemma handleMessage_outcome message st :
  let '(result, st', _) := handleMessage options message st in
  match result with
  | Normal _ =>
      exists message',
        messages st' = (messages st ++ [message'])%list /\
        rawJsonlOutput st' = (rawJsonlOutput st ++ [JSON_stringify message'])%list /\
        (is_type message "partial" = false -> message' = message) /\
        (forall k, k <> "tool_calls" -> get message' k = get message k)
  | Throw =>
      same_log st st' /\
      (message = JNull \/ is_type message "partial" = true \/
       (is_type message "response" = true /\ truthy_opt (usage_of message) = true))
  end.
Proof.
  assert (message = JNull \/ message <> JNull) as [->|Hn]
    by (destruct message; auto; right; discriminate).
  { simpl. split; [apply same_log_refl | auto]. }
  rewrite handleMessage_not_null by exact Hn.
  pose proof (dispatch_log message st) as Hd.
  pose proof (dispatch_outcome message st) as Ho.
  unfold bind at 1.
  destruct (dispatch options message st) as [[[m'|] st1] c1]; simpl in *.
  - destruct Hd as [[Hm Hr] _]. destruct Ho as [Hsame Hprops].
    unfold append. run.
    destruct (extractSessionInfo_same_log message
                (setRawJsonlOutput (fun prev => prev ++ [JSON_stringify m'])%list
                   (setMessages (fun prev => prev ++ [m'])%list st1)))
      as (st2 & c2 & -> & [Hm2 Hr2]).
    simpl in *. exists m'. rewrite Hm2, Hr2, Hm, Hr. auto.
  - destruct Hd as [Hl _]. split; [exact Hl | tauto].
Qed.

(** A record that is not [null], not a partial and not a response with a
    truthy usage is handled to the end. *)
Lemma handleMessage_returns message st :
  message <> JNull ->
  is_type message "partial" = false ->
  is_type message "response" && truthy_opt (usage_of message) = false ->
  (handleMessage options message st).1.1 = Normal tt.
Proof.
  intros Hn Hp Hr.
  pose proof (handleMessage_outcome message st) as H.
  destruct (handleMessage options message st) as [[[[]|] st'] c]; simpl in *;
    [reflexivity|].
  destruct H as [_ [H | [H | [H1 H2]]]]; [contradiction | congruence |].
  rewrite H1, H2 in Hr. discriminate.
Qed.


(** What the listener leaves of a payload that parses and is handled to the
    end. *)
Lemma ingest_handled st payload message :
  JSON_parse payload = Some message ->
  (handleMessage options message st).1.1 = Normal tt ->
  exists message',
    messages (ingest options st payload).1 = (messages st ++ [message'])%list /\
    rawJsonlOutput (ingest options st payload).1
    = (rawJsonlOutput st ++ [JSON_stringify message'])%list /\
    (is_type message "partial" = false -> message' = message) /\
    (forall k, k <> "tool_calls" -> get message' k = get message k).
Proof.
  intros Hp Hn. rewrite (ingest_parsed _ _ _ Hp).
  pose proof (handleMessage_outcome message st) as H.
  destruct (handleMessage options message st) as [[[[]|] st'] c]; simpl in *;
    [exact H | discriminate].
Qed.









(** C6.  A payload that fails to parse is logged and dropped: the state is
    the one before it, the payloads that follow are handled from that state,
    and a record that follows and is handled to the end (any record that is
    not [null], not a partial and not a response with a truthy usage) is
    appended to the two logs as if the malformed payload had not come.  A
    line of a stored blob that fails to parse is skipped by loadMessages:
    the message log holds the parse of every other line that is not blank,
    in order, and the raw-line log those lines themselves. *)
Theorem malformed_discarded (st : State) (payload line : string)
    (rest before after : list string) :
  JSON_parse payload = None ->
  JSON_parse line = None ->
  Forall (fun l => newline_free l = true) (before ++ line :: after)%list ->
  ingest options st payload =
    (st, [ConsoleError "[TRACE] Failed to parse Claude stream message:"]) /\
  (ingest_all options st (payload :: rest)).1 = (ingest_all options st rest).1 /\
  (forall next message,
      JSON_parse next = Some message ->
      message <> JNull ->
      is_type message "partial" = false ->
      is_type message "response" && truthy_opt (usage_of message) = false ->
      let st' := (ingest_all options st [payload; next]).1 in
      messages st' = (messages st ++ [message])%list /\
      rawJsonlOutput st' = (rawJsonlOutput st ++ [JSON_stringify message])%list) /\
  let '(r, st', _) :=
    loadMessages (Some (join_lines (before ++ line :: after)%list)) st in
  let kept := filter (fun l => negb (blank l)) (before ++ after)%list in
  r = Normal tt /\
  messages st' = omap JSON_parse kept /\
  rawJsonlOutput st' = filter (fun l => is_Some (JSON_parse l)) kept /\
  isStreaming st' = isStreaming st /\
  currentSessionId st' = currentSessionId st /\
  accumulatedContent st' = accumulatedContent st.
Proof.
  intros Hp Hl Hall. split; [|split; [|split]].
  - apply ingest_malformed, Hp.
  - simpl. rewrite (ingest_malformed _ _ Hp).
    destruct (ingest_all options st rest). reflexivity.
  - intros next message Hnext Hn Hpart Hresp.
    assert (Hrun : (ingest_all options st [payload; next]).1
                   = (ingest options st next).1).
    { simpl. rewrite (ingest_malformed _ _ Hp).
      destruct (ingest options st next). reflexivity. }
    cbv zeta. rewrite Hrun.
    destruct (ingest_handled st next message Hnext
                (handleMessage_returns message st Hn Hpart Hresp))
      as (message' & Hm & Hr & Hsame & _).
    rewrite (Hsame Hpart) in Hm, Hr. auto.
  - rewrite loadMessages_run, (read_output_lines _ Hall). simpl.
    assert (Hk : filter (fun l => negb (blank l)) (before ++ line :: after)%list
                 = (filter (fun l => negb (blank l)) before
                    ++ filter (fun l => negb (blank l)) [line]
                    ++ filter (fun l => negb (blank l)) after)%list).
    { rewrite filter_app. f_equal.
      change (line :: after) with ([line] ++ after)%list. apply filter_app. }
    rewrite Hk, !filter_app, !omap_app.
    assert (Hm : omap JSON_parse (filter (fun l => negb (blank l)) [line]) = []).
    { destruct (blank line) eqn:Hb.
      - rewrite filter_cons_False by (rewrite Hb; simpl; auto). reflexivity.
      - rewrite filter_cons_True by (rewrite Hb; simpl; auto).
        simpl. rewrite Hl. reflexivity. }
    assert (Hr : filter (fun l => is_Some (JSON_parse l))
                   (filter (fun l => negb (blank l)) [line]) = []).
    { destruct (blank line) eqn:Hb.
      - rewrite filter_cons_False by (rewrite Hb; simpl; auto). reflexivity.
      - rewrite filter_cons_True by (rewrite Hb; simpl; auto).
        rewrite filter_cons_False by (rewrite Hl; intros [? ?]; discriminate).
        reflexivity. }
    rewrite Hm, Hr. repeat split; reflexivity.
Qed.

End HookFacts.

(** * Properties of the session-routing listeners *)

Section TabsFacts.
Import Tabs.
Variable generateTabId : list Tab -> string.

Lemma updateTab_ids r tabId u :
  map id (tabs (updateTab r tabId u)) = map id (tabs r).
Proof.
  unfold updateTab. simpl. induction (tabs r) as [|t ts IH]; simpl; [reflexivity|].
  rewrite IH. destruct (String.eqb (id t) tabId); reflexivity.
Qed.

Lemma updateTab_sessions r tabId u :
  set_sessionId u = None ->
  map sessionId (tabs (updateTab r tabId u)) = map sessionId (tabs r).
Proof.
  intros Hu. unfold updateTab. simpl.
  induction (tabs r) as [|t ts IH]; simpl; [reflexivity|].
  rewrite IH. destruct (String.eqb (id t) tabId); simpl; [rewrite Hu|]; reflexivity.
Qed.

Lemma omap_sessions (ts ts' : list Tab) :
  map sessionId ts' = map sessionId ts -> omap sessionId ts' = omap sessionId ts.
Proof.
  revert ts'. induction ts as [|t ts IH]; intros [|t' ts'] H; try discriminate;
    [reflexivity|].
  simpl in H. injection H as Ht Hts. cbn. rewrite Ht, (IH _ Hts). reflexivity.
Qed.

Lemma findTabBySessionId_found r sid t :
  findTabBySessionId r sid = Some t -> In t (tabs r) /\ sessionId t = Some sid.
Proof.
  unfold findTabBySessionId. intros H. apply find_some in H as [Hin Hb].
  split; [exact Hin|]. apply bool_decide_eq_true in Hb. exact Hb.
Qed.

(** C4.  When the session of an [open-session-in-tab] or
    [claude-session-selected] event is already bound to a tab, the listener
    adds no tab and changes no tab's id or session id, so a registry whose
    session ids are pairwise distinct stays so, and the tab that holds the
    session becomes the active one. *)
Theorem open_session_already_in_tab (r r' : Registry) (session : Session)
    (existingTab : Tab) :
  findTabBySessionId r (session_id session) = Some existingTab ->
  r' = handleOpenSessionInTab generateTabId r session \/
  r' = handleClaudeSessionSelected generateTabId r session ->
  length (tabs r') = length (tabs r) /\
  map id (tabs r') = map id (tabs r) /\
  map sessionId (tabs r') = map sessionId (tabs r) /\
  (sessions_unique r -> sessions_unique r') /\
  sessionId existingTab = Some (session_id session) /\
  In (id existingTab) (map id (tabs r')) /\
  activeTabId r' = Some (id existingTab).
Proof.
  intros Hfind Hr'.
  assert (Heq : r' = switchTo
            (updateTab r (id existingTab)
               {| set_type := None; set_title := Some (session_title session);
                  set_sessionId := None; set_sessionData := Some session;
                  set_initialProjectPath := None |}) (id existingTab)).
  { destruct Hr' as [-> | ->];
      unfold handleOpenSessionInTab, handleClaudeSessionSelected;
      rewrite Hfind; reflexivity. }
  destruct (findTabBySessionId_found _ _ _ Hfind) as [Hin Hsid].
  assert (Hids : map id (tabs r') = map id (tabs r))
    by (rewrite Heq; apply updateTab_ids).
  assert (Hss : map sessionId (tabs r') = map sessionId (tabs r))
    by (rewrite Heq; apply updateTab_sessions; reflexivity).
  split; [|split; [exact Hids|split; [exact Hss|split; [|split; [exact Hsid|split]]]]].
  - rewrite <- (length_map id (tabs r')), Hids. apply length_map.
  - unfold sessions_unique. rewrite (omap_sessions _ _ Hss). auto.
  - rewrite Hids. apply in_map, Hin.
  - rewrite Heq. reflexivity.
Qed.

End TabsFacts.

(** * Properties of the tool cache *)

Section MCPFacts.
Import MCP.
Context {J : Json}.

(** C8, as amended.  At mount, an absent item and an item that fails to
    parse both leave the server tools the empty object, and the load returns
    normally.  The key is written back after a test of a connection whose
    request resolves, with the serialization of the new mapping, and after
    every refresh of all statuses, with that of the mapping it built; a test
    whose request is rejected writes nothing and changes neither the
    mapping nor the item. *)
Theorem server_tools_persisted (corrupt name : string) (st : State)
    (running : bool) (results : list (string * mcpGet)) :
  JSON_parse corrupt = None ->
  (loadPersistedTools (mounted None)).1 = mounted None /\
  serverTools (loadPersistedTools (mounted (Some corrupt))).1 = JObj [] /\
  (loadPersistedTools (mounted (Some corrupt))).1 = mounted (Some corrupt) /\
  (let st' := (handleTestConnection st name (Resolved running)).1 in
   (exists ps, serverTools st' = JObj ps /\ obj_get ps name = Some (tools_of running)) /\
   storage st' = Some (JSON_stringify (serverTools st'))) /\
  (let st' := (handleTestConnection st name Rejected).1 in
   serverTools st' = serverTools st /\ storage st' = storage st) /\
  (let st' := handleRefreshAllStatuses st results in
   storage st' = Some (JSON_stringify (serverTools st'))).
Proof.
  intros Hc. unfold loadPersistedTools. simpl.
  destruct (String.eqb corrupt ""); rewrite ?Hc; simpl;
    repeat split; try reflexivity;
    (eexists; split; [reflexivity|]);
    rewrite obj_get_set, String.eqb_refl; reflexivity.
Qed.

End MCPFacts.

(** * The properties on concrete streams *)

Section Examples.
Existing Instance ecma_json.

Lemma parse_start : JSON_parse start_payload = Some start_message.
Proof. vm_compute. reflexivity. Qed.




(** The language operations on a few values. *)
Example ToString_examples :
  ToString (JArr [JNum 1; JNull; JArr [JNum (-2); JStr "x"]; JBool true])
  = Some "1,,-2,x,true" /\
  ToString (JObj [("a", JNum 1)]) = Some "[object Object]" /\
  ToString (JObj [("toString", JNum 1)]) = None.
Proof. vm_compute. repeat split; reflexivity. Qed.

Example add_examples :
  add (JNum 10) (JNum 5) = Some (JNum 15) /\
  add (JStr "10") (JNum 5) = Some (JStr "105") /\
  add (JBool true) (JNum 5) = Some (JNum 6) /\
  add (JArr []) (JNum 5) = Some (JStr "5").
Proof. vm_compute. repeat split; reflexivity. Qed.

Example StringToNumber_positive_examples :
  map StringToNumber_positive
    ["1"; " 1 "; "+1"; "1e3"; ".5"; "5."; "0x10"; "Infinity"; "1e-323"]
  = [true; true; true; true; true; true; true; true; true] /\
  map StringToNumber_positive
    [""; "0"; "-1"; "1e"; "0x"; "."; "1 2"; "1,2"; "abc"; "1e-400"; "-Infinity"]
  = [false; false; false; false; false; false; false; false; false; false; false].
Proof. vm_compute. split; reflexivity. Qed.

Example length_positive_examples :
  length_positive (JArr []) = Some false /\
  length_positive (JStr "abc") = Some true /\
  length_positive (JNum 3) = Some false /\
  length_positive (JObj [("length", JStr "2")]) = Some true /\
  length_positive (JObj [("length", JObj [("toString", JNull)])]) = None.
Proof. vm_compute. repeat split; reflexivity. Qed.

Example parse_property_order :
  JSON_parse (js_text "{'b':1,'a':[1,{'x':null}],'1':true,'b':'z'}")
  = Some (JObj [("1", JBool true); ("b", JStr "z");
                ("a", JArr [JNum 1; JObj [("x", JNull)]])]).
Proof. vm_compute. reflexivity. Qed.

Example parse_numbers :
  map JSON_parse ["1e3"; "1.5e1"; "-0"; "100e-2"; "-12"; "9007199254740993";
                  "1152921504606846976"; "1e23"]
  = map (fun n => Some (JNum n))
      [1000; 15; 0; 1; -12; 9007199254740992;
       1152921504606846976; 99999999999999991611392] /\
  map JSON_parse ["1."; "1e"; ".5"; "-"; "01"; "+1"; "0x10"]
  = [None; None; None; None; None; None; None].
Proof. vm_compute. split; reflexivity. Qed.

Example stringify_numbers :
  map JSON_stringify
    [JNum 15; JNum (-12); JNum 9007199254740992; JNum 1152921504606846976;
     JNum (10 ^ 21); JNum 99999999999999991611392; JNum (- 2 ^ 70)]
  = ["15"; "-12"; "9007199254740992"; "1152921504606847000";
     "1e+21"; "1e+23"; "-1.1805916207174113e+21"].
Proof. vm_compute. reflexivity. Qed.

Example parse_rejects :
  map JSON_parse ["{oops"; "[1,]"; "01"; "{}x"; ""; js_text "{'a' 1}"]
  = [None; None; None; None; None; None].
Proof. vm_compute. reflexivity. Qed.

Example stringify_after_parse :
  JSON_stringify <$> JSON_parse (js_text " { 'a' : [ 1 , 'x\ty' , null , true ] } ")
  = Some (js_text "{'a':[1,'x\ty',null,true]}").
Proof. vm_compute. reflexivity. Qed.

Example split_lines_examples :
  split_lines "" = [""] /\
  split_lines (join_lines ["a"; ""; "b"]) = ["a"; ""; "b"] /\
  map blank [""; " "; "a "] = [true; true; false].
Proof. vm_compute. repeat split; reflexivity. Qed.

(** The example of the specification: the partial contents add up to
    "Hello" and the token update carries 15, but the streaming flag is still
    set at the end. *)
Example example_stream_run :
  let '(st, calls) := ingest_all all_callbacks initial example_stream in
  map tool_calls_of (messages st) =
    [ [];
      [JObj [("partial_tool_call_index", JNum 0); ("content", JStr "Hel");
             ("accumulated_content", JStr "Hel")]];
      [JObj [("partial_tool_call_index", JNum 0); ("content", JStr "lo");
             ("accumulated_content", JStr "Hello")]];
      [] ] /\
  calls = [StreamingChange true JNull; TokenUpdate (JNum 15)] /\
  isStreaming st = true.
Proof. vm_compute. repeat split; reflexivity. Qed.

(** C1.  After a start and a response that carries its usage, the streaming
    flag is still set, and the only calls made are the one that announced
    the start and the token update: the response's own branch of the chain,
    which clears the flag and calls onStreamingChange(false, ...), is not
    reached. *)
Theorem response_with_usage_leaves_streaming_on :
  let '(st, calls) :=
    ingest_all all_callbacks initial [start_payload; response_payload] in
  isStreaming st = true /\
  calls = [StreamingChange true JNull; TokenUpdate (JNum 15)].
Proof. vm_compute. split; reflexivity. Qed.





(** A malformed payload before a start, and a malformed line between two
    stored records. *)
Lemma malformed_discarded_witness :
  JSON_parse "{oops" = None /\
  JSON_parse "not json" = None /\
  ingest all_callbacks initial "{oops" =
    (initial, [ConsoleError "[TRACE] Failed to parse Claude stream message:"]) /\
  (let st' := (ingest_all all_callbacks initial ["{oops"; start_payload]).1 in
   messages st' = [start_message] /\
   rawJsonlOutput st' = [JSON_stringify start_message]) /\
  let '(r, st', _) :=
    loadMessages
      (Some (join_lines ([start_payload] ++ "not json" :: [response_payload])%list))
      initial in
  r = Normal tt /\
  messages st' = [start_message; response_message] /\
  rawJsonlOutput st' = [start_payload; response_payload].
Proof.
  assert (H1 : JSON_parse "{oops" = None) by (vm_compute; reflexivity).
  assert (H2 : JSON_parse "not json" = None) by (vm_compute; reflexivity).
  split; [exact H1|]. split; [exact H2|].
  pose proof (malformed_discarded all_callbacks initial "{oops" "not json"
                [start_payload] [start_payload] [response_payload] H1 H2
                ltac:(repeat constructor)) as (Hdrop & _ & Hnext & Hblob).
  split; [exact Hdrop|]. split.
  - exact (Hnext start_payload start_message parse_start
             ltac:(discriminate) eq_refl eq_refl).
  - destruct (loadMessages _ initial) as [[r st'] c].
    destruct Hblob as (Hr & Hm & Hraw & _).
    split; [exact Hr|]. split.
    + rewrite Hm. vm_compute. reflexivity.
    + rewrite Hraw. vm_compute. reflexivity.
Defined.

(** The example's response: 10 and 5 make 15.  At 2^53 and 1 the sum is
    not a double, and the count notified is 2^53. *)
Lemma response_token_update_witness :
  (exists st',
      handleMessage all_callbacks response_message initial =
        (Normal tt, st', [TokenUpdate (JNum 15)])) /\
  (exists st',
      handleMessage all_callbacks (response_with_counts 9007199254740992 1) initial =
        (Normal tt, st', [TokenUpdate (JNum 9007199254740992)])).
Proof.
  split.
  - destruct (response_token_update all_callbacks initial response_message
                (JObj [("input_tokens", JNum 10); ("output_tokens", JNum 5)]) 10 5
                eq_refl eq_refl eq_refl eq_refl (or_intror eq_refl) (or_intror eq_refl)
                ltac:(vm_compute; discriminate))
      as (st' & total & Hrun & _ & Hexact).
    exists st'. rewrite Hrun, (Hexact ltac:(vm_compute; discriminate)). reflexivity.
  - destruct (response_token_update all_callbacks initial
                (response_with_counts 9007199254740992 1)
                (JObj [("input_tokens", JNum 9007199254740992);
                       ("output_tokens", JNum 1)]) 9007199254740992 1
                eq_refl eq_refl eq_refl eq_refl (or_intror eq_refl) (or_intror eq_refl)
                ltac:(vm_compute; discriminate))
      as (st' & total & Hrun & Htotal & _).
    exists st'. rewrite Hrun, Htotal. reflexivity.
Defined.

(** A session_info with both ids. *)
Lemma session_info_identity_witness :
  is_type session_info_message "session_info" = true /\
  let '(result, st', calls) :=
    handleMessage all_callbacks session_info_message initial in
  result = Normal tt /\
  messages st' = (messages initial ++ [session_info_message])%list /\
  calls = [SessionInfo (JStr "s1") (JStr "p1")] /\
  currentSessionId st' = JStr "s1".
Proof.
  split; [reflexivity|].
  exact (session_info_identity all_callbacks initial session_info_message eq_refl).
Defined.

End Examples.

Section MoreExamples.
Import Tabs.
Import MCP.
Existing Instance ecma_json.

(** The lookup example of the specification. *)
Example findTabBySessionId_example :
  id <$> findTabBySessionId example_registry "s1" = Some "t1".
Proof. reflexivity. Qed.

(** Opening the session of the first tab while the second is active. *)
Lemma open_session_already_in_tab_witness :
  let r' := handleOpenSessionInTab example_generateTabId example_registry example_session in
  findTabBySessionId example_registry "s1" = head (tabs example_registry) /\
  length (tabs r') = 2%nat /\
  map id (tabs r') = ["t1"; "t2"] /\
  map sessionId (tabs r') = [Some "s1"; Some "s2"] /\
  map title (tabs r') = ["codestudio"; "two"] /\
  activeTabId r' = Some "t1".
Proof.
  pose proof (open_session_already_in_tab example_generateTabId example_registry
                (handleOpenSessionInTab example_generateTabId example_registry
                   example_session)
                example_session
                {| id := "t1"; type := chat; title := "one"; sessionId := Some "s1";
                   sessionData := None; initialProjectPath := None |}
                eq_refl (or_introl eq_refl))
    as (Hlen & Hids & Hss & _ & _ & _ & Hactive).
  cbv zeta. split; [reflexivity|]. split; [exact Hlen|]. split; [exact Hids|].
  split; [exact Hss|]. split; [reflexivity|]. exact Hactive.
Defined.

(** C8, as stated, fails after a test whose request is rejected: the
    [catch] of handleTestConnection writes nothing, so the key that was
    absent at mount is still absent after the test, and a corrupt item is
    still the corrupt item, where a write would have left the serialization
    of the mapping. *)
Lemma rejected_test_writes_nothing :
  let st := (loadPersistedTools (mounted None)).1 in
  let st' := (handleTestConnection st "files" Rejected).1 in
  let corrupt := (loadPersistedTools (mounted (Some "{oops"))).1 in
  let corrupt' := (handleTestConnection corrupt "files" Rejected).1 in
  serverTools st' = JObj [] /\
  storage st' = None /\
  storage st' <> Some (JSON_stringify (serverTools st')) /\
  serverTools corrupt' = JObj [] /\
  storage corrupt' = Some "{oops" /\
  storage corrupt' <> Some (JSON_stringify (serverTools corrupt')).
Proof.
  cbv zeta. split; [reflexivity|]. split; [reflexivity|].
  split; [discriminate|]. split; [vm_compute; reflexivity|].
  split; [vm_compute; reflexivity|]. vm_compute. discriminate.
Qed.

(** A corrupt item at mount, and a first successful test of a server. *)
Lemma server_tools_persisted_witness :
  JSON_parse "{oops" = None /\
  serverTools (loadPersistedTools (mounted (Some "{oops"))).1 = JObj [] /\
  (let st' := (handleTestConnection (mounted None) "files" (Resolved true)).1 in
   serverTools st' = JObj [("files", JArr [JStr "fetch"; JStr "list"])] /\
   storage st' = Some (js_text "{'files':['fetch','list']}")).
Proof.
  assert (H : JSON_parse "{oops" = None) by (vm_compute; reflexivity).
  pose proof (server_tools_persisted "{oops" "files" (mounted None) true [] H)
    as (_ & Hload & _ & [_ Hstore] & _).
  split; [exact H|]. split; [exact Hload|]. split; [reflexivity|].
  rewrite Hstore. vm_compute. reflexivity.
Defined.

End MoreExamples.

(** * More properties of the hook *)

Section HookMore.
Import Web.
Context {J : Json}.
Variable options : UseClaudeMessagesOptions.

Lemma same_but_buffer_refl st : same_but_buffer st st.
Proof. destruct st. reflexivity. Qed.

Lemma same_but_buffer_trans st1 st2 st3 :
  same_but_buffer st1 st2 -> same_but_buffer st2 st3 -> same_but_buffer st1 st3.
Proof.
  unfold same_but_buffer. intros H12 H23. rewrite H23 at 1. rewrite H12 at 1.
  reflexivity.
Qed.

Lemma accumulate_same_but_buffer toolCall st :
  same_but_buffer st (accumulate toolCall st).1.2.
Proof.
  unfold accumulate.
  destruct toolCall as [| | | | |ps]; try apply same_but_buffer_refl. simpl.
  destruct (obj_get ps "content") as [content|]; [|apply same_but_buffer_refl].
  destruct (obj_get ps "partial_tool_call_index") as [index|];
    [|apply same_but_buffer_refl].
  destruct (truthy content); [|apply same_but_buffer_refl].
  destruct (ToString index) as [suffix|]; run; [|apply same_but_buffer_refl].
  destruct (ToString content) as [delta|]; run; reflexivity.
Qed.

Lemma forEach_same_but_buffer l st :
  same_but_buffer st (forEach accumulate l st).1.2.
Proof.
  revert st. induction l as [|x l IH]; intros st; simpl.
  - apply same_but_buffer_refl.
  - unfold bind at 1. pose proof (accumulate_same_but_buffer x st) as Hx.
    destruct (accumulate x st) as [[[y|] st1] c1]; simpl in *; [|exact Hx].
    unfold bind at 1. pose proof (IH st1) as Hl.
    destruct (forEach accumulate l st1) as [[[ys|] st2] c2]; simpl in *;
      eapply same_but_buffer_trans; eauto.
Qed.

Lemma accumulate_tool_calls_same_but_buffer message st :
  same_but_buffer st (accumulate_tool_calls message st).1.2.
Proof.
  unfold accumulate_tool_calls.
  destruct (get message "tool_calls") as [tc|]; [|apply same_but_buffer_refl].
  destruct (truthy tc); [|apply same_but_buffer_refl].
  destruct (length_positive tc) as [[]|]; run; try apply same_but_buffer_refl.
  destruct tc; try apply same_but_buffer_refl.
  destruct message; try apply same_but_buffer_refl.
  pose proof (forEach_same_but_buffer elems st) as Hl.
  destruct (forEach accumulate elems st) as [[[ys|] st2] c2]; simpl in *; exact Hl.
Qed.

Lemma dispatch_frame message st :
  let st' := (dispatch options message st).1.2 in
  currentSessionId st' = currentSessionId st /\
  (is_type message "start" = false -> is_type message "partial" = false ->
   accumulatedContent st' = accumulatedContent st) /\
  (is_type message "start" = false -> is_type message "error" = false ->
   is_type message "response" = false -> isStreaming st' = isStreaming st).
Proof.
  unfold dispatch.
  destruct (is_type message "start") eqn:Hs.
  { run. destruct (onStreamingChange options); simpl; repeat split;
      intros; discriminate. }
  destruct (is_type message "partial") eqn:Hp.
  { pose proof (accumulate_tool_calls_same_but_buffer message st) as Hb.
    cbv zeta. rewrite Hb. simpl. repeat split; intros; discriminate. }
  destruct (is_type message "response") eqn:Hr; simpl.
  - destruct (truthy_opt (usage_of message)).
    + destruct (add _ _); run.
      * destruct (onTokenUpdate options); simpl; repeat split; intros; discriminate.
      * repeat split; intros; discriminate.
    + rewrite orb_true_r. run.
      destruct (onStreamingChange options); simpl; repeat split; intros; discriminate.
  - rewrite orb_false_r. destruct (is_type message "error"); run.
    + destruct (onStreamingChange options); simpl; repeat split; intros; discriminate.
    + repeat split; reflexivity.
Qed.

(** X1.  What a message can change besides the two logs: the accumulation
    buffer only changes on a start or a partial, the current session id only
    on a session_info, and the streaming flag only on a start, an error or a
    response. *)
Theorem handleMessage_frame (message : json) (st : State) :
  let st' := (handleMessage options message st).1.2 in
  (is_type message "start" = false -> is_type message "partial" = false ->
   accumulatedContent st' = accumulatedContent st) /\
  (is_type message "session_info" = false ->
   currentSessionId st' = currentSessionId st) /\
  (is_type message "start" = false -> is_type message "error" = false ->
   is_type message "response" = false -> isStreaming st' = isStreaming st).
Proof.
  assert (message = JNull \/ message <> JNull) as [->|Hn]
    by (destruct message; auto; right; discriminate).
  { simpl. auto. }
  rewrite handleMessage_not_null by exact Hn.
  pose proof (dispatch_frame message st) as Hd. cbv zeta in Hd.
  unfold bind at 1.
  destruct (dispatch options message st) as [[[m'|] st1] c1]; simpl in Hd.
  - destruct Hd as (Hsid & Hacc & Hstr).
    unfold append, extractSessionInfo. run.
    destruct (is_type message "session_info") eqn:Hsi; simpl.
    + destruct (truthy_opt (get message "session_id")
                && truthy_opt (get message "project_id")); run.
      * destruct (onSessionInfo options); simpl; repeat split; auto; discriminate.
      * repeat split; auto.
    + repeat split; auto.
  - destruct Hd as (Hsid & Hacc & Hstr). simpl. repeat split; auto.
Qed.

Lemma known_type_false message :
  known_type message = false ->
  is_type message "start" = false /\ is_type message "partial" = false /\
  is_type message "response" = false /\ is_type message "error" = false /\
  is_type message "session_info" = false.
Proof.
  unfold known_type. intros H.
  repeat (apply orb_false_iff in H as [H ?]). auto.
Qed.

Lemma unknown_type_handled message st :
  message <> JNull ->
  known_type message = false ->
  handleMessage options message st =
    (Normal tt,
     setRawJsonlOutput (fun prev => prev ++ [JSON_stringify message])%list
       (setMessages (fun prev => prev ++ [message])%list st),
     []).
Proof.
  intros Hn Hk. apply known_type_false in Hk as (Hs & Hp & Hr & He & Hi).
  rewrite handleMessage_not_null by exact Hn.
  unfold dispatch, extractSessionInfo, append.
  rewrite Hs, Hp, Hr, He, Hi. reflexivity.
Qed.

(** X2.  A record whose type is none of start, partial, response, error and
    session_info (an output record, a kind that is not known, a value with
    no type at all) is appended to the two logs and does nothing else, on
    both transports: no callback, no diagnostic, no other change of state. *)
Theorem unknown_type_passes_through (st : State) (payload : string) (message : json) :
  JSON_parse payload = Some message ->
  message <> JNull ->
  known_type message = false ->
  let st' :=
    setRawJsonlOutput (fun prev => prev ++ [JSON_stringify message])%list
      (setMessages (fun prev => prev ++ [message])%list st) in
  ingest options st payload = (st', []) /\
  webEventHandler options st message = (st', []).
Proof.
  intros Hp Hn Hk. cbv zeta. split.
  - rewrite (ingest_parsed _ _ _ _ Hp), (unknown_type_handled _ _ Hn Hk). reflexivity.
  - unfold webEventHandler. rewrite (unknown_type_handled _ _ Hn Hk). reflexivity.
Qed.

(** X3.  On the live path the raw-line log is the serialization of the
    message log: the listener keeps that relation whatever the payloads, and
    clearMessages establishes it. *)
Theorem raw_mirrors_kept (st : State) (payloads : list string) :
  raw_mirrors st ->
  raw_mirrors (ingest_all options st payloads).1 /\
  raw_mirrors (clearMessages (ingest_all options st payloads).1).1.2.
Proof.
  unfold raw_mirrors. intros H. split; [|reflexivity].
  destruct (ingest_all_lockstep options st payloads) as (added & Hm & Hr & _).
  rewrite Hr, Hm, H, fmap_app. reflexivity.
Qed.

Lemma forEach_then_null l st seen :
  Forall typed_fragment l ->
  buffer_holds (accumulatedContent st) seen ->
  exists st',
    forEach accumulate (l ++ [JNull]) st = (Throw, st', []) /\
    buffer_holds (accumulatedContent st') (seen ++ l) /\
    same_log st st'.
Proof.
  revert st seen. induction l as [|f l IH]; intros st seen Hall Hacc; simpl.
  - exists st. rewrite app_nil_r. repeat split; auto.
  - inversion Hall as [|? ? Hf Hl]; subst.
    destruct (accumulate_typed f st seen Hf Hacc) as (st1 & Hrun & Hacc1 & Hlog1 & _).
    destruct (IH st1 (seen ++ [f])%list Hl Hacc1) as (st2 & Hrun2 & Hacc2 & Hlog2).
    exists st2. unfold bind at 1. rewrite Hrun. unfold bind at 1. rewrite Hrun2.
    simpl. rewrite <- app_assoc in Hacc2. split; [reflexivity|]. split; [exact Hacc2|].
    eapply same_log_trans; eauto.
Qed.

(** X4.  Accumulation is not undone when a partial is dropped: if the tool
    calls of a partial are typed fragments followed by a [null], handling
    throws at the [null], the message reaches neither log and one diagnostic
    is written, but the buffer has taken in the content of every fragment
    before it. *)
Theorem dropped_partial_still_accumulates (st : State) (payload : string)
    (message : json) (l seen : list json) :
  JSON_parse payload = Some message ->
  is_type message "partial" = true ->
  get message "tool_calls" = Some (JArr (l ++ [JNull])) ->
  Forall typed_fragment l ->
  buffer_holds (accumulatedContent st) seen ->
  let '(st', calls) := ingest options st payload in
  same_log st st' /\
  calls = [ConsoleError "[TRACE] Failed to parse Claude stream message:"] /\
  buffer_holds (accumulatedContent st') (seen ++ l).
Proof.
  intros Hp Ht Htc Hall Hacc.
  rewrite (ingest_parsed _ _ _ _ Hp).
  rewrite handleMessage_not_null by (eapply is_type_not_null; eauto).
  destruct (forEach_then_null l st seen Hall Hacc) as (st1 & Hrun & Hacc1 & Hlog).
  assert (Hd : dispatch options message st = (Throw, st1, [])).
  { unfold dispatch. rewrite (is_type_other _ _ "start" Ht) by discriminate.
    rewrite Ht. unfold accumulate_tool_calls. rewrite Htc.
    destruct message as [| | | | |ps]; try discriminate Ht.
    assert (Hpos : length_positive (JArr (l ++ [JNull])) = Some true)
      by (destruct l; reflexivity).
    change (truthy (JArr (l ++ [JNull]))) with true. cbv iota.
    rewrite Hpos. unfold lift, bind at 1. unfold ret at 1. cbv iota beta.
    unfold bind at 1. rewrite Hrun. reflexivity. }
  unfold bind at 1. rewrite Hd. simpl. auto.
Qed.



Lemma start_run message st :
  is_type message "start" = true ->
  handleMessage options message st =
    (Normal tt,
     setRawJsonlOutput (fun prev => prev ++ [JSON_stringify message])%list
       (setMessages (fun prev => prev ++ [message])%list
          (setIsStreaming true (setAccumulated (fun _ => ∅) st))),
     if onStreamingChange options
     then [StreamingChange true (currentSessionId st)] else []).
Proof.
  intros Ht.
  rewrite handleMessage_not_null by (eapply is_type_not_null; eauto).
  unfold dispatch, extractSessionInfo, append.
  rewrite (is_type_other _ _ "session_info" Ht) by discriminate.
  rewrite Ht. run. destruct (onStreamingChange options); reflexivity.
Qed.

(** X6.  A turn that ends in an error, or in a response without usage: after
    the start and the terminal record the streaming flag is down, the
    accumulation buffer is empty, the two records are the last two of the
    message log, and onStreamingChange was called with true and then with
    false, each time with the session id current before the turn. *)
Theorem turn_ends_streaming (st : State) (start terminal : string) (m0 m1 : json) :
  JSON_parse start = Some m0 ->
  is_type m0 "start" = true ->
  JSON_parse terminal = Some m1 ->
  (is_type m1 "error" = true \/
   (is_type m1 "response" = true /\ truthy_opt (usage_of m1) = false)) ->
  let '(st', calls) := ingest_all options st [start; terminal] in
  isStreaming st' = false /\
  accumulatedContent st' = ∅ /\
  currentSessionId st' = currentSessionId st /\
  messages st' = (messages st ++ [m0; m1])%list /\
  calls = if onStreamingChange options
          then [StreamingChange true (currentSessionId st);
                StreamingChange false (currentSessionId st)]
          else [].
Proof.
  intros Hp0 Ht0 Hp1 Ht1.
  change (ingest_all options st [start; terminal])
    with (let '(st1, c1) := ingest options st start in
          let '(st2, c2) :=
            (let '(st2, c2) := ingest options st1 terminal in (st2, (c2 ++ [])%list)) in
          (st2, (c1 ++ c2)%list)).
  rewrite (ingest_parsed _ _ _ _ Hp0), (start_run _ _ Ht0).
  rewrite (ingest_parsed _ _ _ _ Hp1), (terminal_ends_streaming _ _ _ Ht1).
  destruct (onStreamingChange options); simpl; rewrite <- app_assoc; auto.
Qed.

End HookMore.

(** * Properties of the system detection and the window controls *)

Section OSFacts.
Import OS.
Variable toLowerCase : string -> string.

(** X7.  Where there is a navigator, detectOS never answers [Unknown]: when
    neither the Windows test nor the macOS test fires, the last disjunct of
    the Linux test holds, so the answer is [Linux] and the final return is
    never reached.  The default arm of osToWindowControlStyle thus serves
    only a page without window or navigator. *)
Theorem detectOS_never_unknown (nav : Navigator) :
  detectOS toLowerCase (Some nav) <> Unknown /\
  (detectOS toLowerCase (Some nav) = Linux <->
   detectOS toLowerCase (Some nav) <> Windows /\
   detectOS toLowerCase (Some nav) <> MacOS) /\
  (forall navigator, detectOS toLowerCase navigator = Unknown <-> navigator = None).
Proof.
  assert (H : detectOS toLowerCase (Some nav) <> Unknown).
  { unfold detectOS.
    destruct (includes (default "" (toLowerCase <$> platform nav)) "win") eqn:Hw;
      simpl; [discriminate|].
    destruct (includes (default "" (toLowerCase <$> userAgent nav)) "windows"
              || includes (default "" (toLowerCase <$> userAgent nav)) "win32"
              || includes (default "" (toLowerCase <$> userAgent nav)) "win64");
      [discriminate|].
    destruct (includes (default "" (toLowerCase <$> platform nav)) "mac") eqn:Hm;
      simpl; [discriminate|].
    destruct (includes (default "" (toLowerCase <$> userAgent nav)) "mac os x"
              || includes (default "" (toLowerCase <$> userAgent nav)) "macintosh");
      [discriminate|].
    rewrite orb_true_r. discriminate. }
  split; [exact H|]. split.
  - destruct (detectOS toLowerCase (Some nav)); intuition congruence.
  - intros [n|]; split; try congruence; intros Hn.
    + exfalso. revert Hn. clear H. unfold detectOS.
      destruct (includes (default "" (toLowerCase <$> platform n)) "win") eqn:Hw;
        simpl; [discriminate|].
      destruct (includes (default "" (toLowerCase <$> userAgent n)) "windows"
                || includes (default "" (toLowerCase <$> userAgent n)) "win32"
                || includes (default "" (toLowerCase <$> userAgent n)) "win64");
        [discriminate|].
      destruct (includes (default "" (toLowerCase <$> platform n)) "mac") eqn:Hm;
        simpl; [discriminate|].
      destruct (includes (default "" (toLowerCase <$> userAgent n)) "mac os x"
                || includes (default "" (toLowerCase <$> userAgent n)) "macintosh");
        [discriminate|].
      rewrite orb_true_r. discriminate.
    + reflexivity.
Qed.

Lemma style_named_eq savedStyle s :
  style_named savedStyle = Some s ->
  String.eqb savedStyle "" = false /\ JS.blank savedStyle = false.
Proof.
  unfold style_named.
  destruct (String.eqb_spec savedStyle "macos") as [->|_]; [intros _; split; reflexivity|].
  destruct (String.eqb_spec savedStyle "windows") as [->|_]; [intros _; split; reflexivity|].
  destruct (String.eqb_spec savedStyle "linux") as [->|_]; [intros _; split; reflexivity|].
  discriminate.
Qed.

(** X8.  Of the two places where window controls can sit, exactly one shows
    them once the style is loaded, and none while it is loading. *)
Theorem shouldRender_one_side (controlStyle : WindowControlStyle) (position : Position) :
  shouldRender true controlStyle position = false /\
  shouldRender false controlStyle left = negb (shouldRender false controlStyle right) /\
  (shouldRender false controlStyle position = true <->
   position = CustomTitlebar_position controlStyle).
Proof.
  destruct controlStyle, position; simpl; repeat split; try reflexivity;
    try discriminate; intros; congruence.
Qed.

(** X9.  The title bar and the window controls it mounts agree: they read
    the same setting and detect the same system, so whatever the setting
    holds (a style, garbage, nothing) and whether or not reading it fails,
    the controls mounted without a [style] prop at the position chosen by
    the title bar are the ones that render. *)
Theorem titlebar_controls_render (navigator : option Navigator) (setting : getSetting) :
  let detectedOS := detectOS toLowerCase navigator in
  let windowControlStyle := CustomTitlebar_loadStyle detectedOS setting in
  let controlStyle :=
    WindowControls_loadStyle None (osToWindowControlStyle detectedOS) setting in
  controlStyle = windowControlStyle /\
  shouldRender false controlStyle (CustomTitlebar_position windowControlStyle) = true.
Proof.
  cbv zeta.
  assert (H : WindowControls_loadStyle None
                (osToWindowControlStyle (detectOS toLowerCase navigator)) setting
              = CustomTitlebar_loadStyle (detectOS toLowerCase navigator) setting).
  { destruct setting as [|[savedStyle|]]; simpl; try reflexivity.
    destruct (style_named savedStyle) as [s|] eqn:Hs.
    - destruct (style_named_eq _ _ Hs) as [-> ->]. reflexivity.
    - destruct (negb (String.eqb savedStyle "") && negb (JS.blank savedStyle));
        reflexivity. }
  split; [exact H|]. rewrite H.
  destruct (CustomTitlebar_loadStyle (detectOS toLowerCase navigator) setting);
    reflexivity.
Qed.

End OSFacts.

(** * Properties of the pages of SessionList *)

Section SessionListFacts.
Import SessionList.
Context {Session : Type}.
Variable sessions : list Session.

Lemma totalPages_bounds :
  0 <= totalPages sessions /\
  Z.of_nat (length sessions) <= 20 * totalPages sessions /\
  20 * totalPages sessions < Z.of_nat (length sessions) + 20.
Proof.
  unfold totalPages, ceil_div, ITEMS_PER_PAGE.
  pose proof (Z.div_mod (- Z.of_nat (length sessions)) 20 ltac:(lia)) as Hd.
  pose proof (Z.mod_pos_bound (- Z.of_nat (length sessions)) 20 ltac:(lia)) as Hm.
  lia.
Qed.

(** The page [k + 1] holds the next twenty sessions after the first [20 k]. *)
Lemma currentSessions_chunk (k : nat) :
  currentSessions sessions (Z.of_nat (S k)) = take 20 (drop (20 * k) sessions).
Proof.
  unfold currentSessions, slice, ITEMS_PER_PAGE.
  replace ((Z.of_nat (S k) - 1) * 20) with (Z.of_nat (20 * k)) by lia.
  destruct (Z.ltb_spec (Z.of_nat (20 * k)) 0) as [?|_]; [lia|].
  destruct (Z.ltb_spec (Z.of_nat (20 * k) + 20) 0) as [?|_]; [lia|].
  destruct (decide (20 * k <= length sessions)%nat) as [Hle|Hgt].
  - rewrite (Z.min_l (Z.of_nat (20 * k))) by lia. rewrite Nat2Z.id.
    destruct (decide (20 * k + 20 <= length sessions)%nat) as [Hle2|Hgt2].
    + rewrite Z.min_l by lia. f_equal. lia.
    + rewrite Z.min_r by lia.
      rewrite !take_ge by (rewrite length_drop; lia). reflexivity.
  - rewrite !Z.min_r by lia. rewrite Nat2Z.id, Z.sub_diag.
    rewrite !drop_ge by lia. reflexivity.
Qed.

Lemma chunks_take (n : nat) :
  concat ((fun k => take 20 (drop (20 * k) sessions)) <$> seq 0 n)
  = take (20 * n) sessions.
Proof.
  induction n as [|n IH]; [reflexivity|].
  rewrite seq_S, fmap_app, concat_app, IH. simpl. rewrite app_nil_r.
  rewrite take_take_drop. f_equal. lia.
Qed.

(** X10.  The pages from 1 to totalPages, one after the other, are the
    sessions: every session is on exactly one page, in the order of the
    list. *)
Theorem pages_cover_sessions :
  concat (currentSessions sessions <$> page_numbers (totalPages sessions)) = sessions.
Proof.
  unfold page_numbers. rewrite <- list_fmap_compose.
  rewrite <- fmap_S_seq, <- list_fmap_compose.
  rewrite (list_fmap_ext _ (fun k => take 20 (drop (20 * k) sessions)) (seq 0 _))
    by (intros ? k _; apply currentSessions_chunk).
  rewrite chunks_take. apply take_ge.
  pose proof totalPages_bounds. lia.
Qed.

(** X11.  Every page from 1 to totalPages holds at least one session and at
    most twenty, exactly twenty before the last; a page past the last is
    empty, and there is no page at all exactly when there is no session. *)
Theorem page_sizes (currentPage : Z) :
  1 <= currentPage ->
  (currentPage <= totalPages sessions ->
   (1 <= length (currentSessions sessions currentPage) <= 20)%nat /\
   (currentPage < totalPages sessions ->
    length (currentSessions sessions currentPage) = 20%nat)) /\
  (totalPages sessions < currentPage -> currentSessions sessions currentPage = []) /\
  (totalPages sessions = 0 <-> sessions = []).
Proof.
  intros Hp. pose proof totalPages_bounds as (H0 & Hle & Hlt).
  replace currentPage with (Z.of_nat (S (Z.to_nat (currentPage - 1)))) by lia.
  rewrite currentSessions_chunk.
  set (k := Z.to_nat (currentPage - 1)).
  assert (Hk : Z.of_nat (S k) = currentPage) by (subst k; lia).
  rewrite Hk. split; [|split].
  - intros Hin. rewrite length_take, length_drop. split; lia.
  - intros Hout. apply nil_length_inv. rewrite length_take, length_drop. lia.
  - split.
    + intros Hz. apply nil_length_inv. lia.
    + intros ->. reflexivity.
Qed.

End SessionListFacts.

(** * Properties of the paths in TabContent *)

Section PathsFacts.
Import Paths.

Lemma concat_cons2 sep x y l :
  String.concat sep (x :: y :: l) = x +:+ sep +:+ String.concat sep (y :: l).
Proof. reflexivity. Qed.

Lemma string_app_cons a s t : String a s +:+ t = String a (s +:+ t).
Proof. reflexivity. Qed.

Lemma includes_single (c : ascii) (s : string) :
  OS.includes s (String c "")
  = existsb (fun a => Ascii.eqb a c) (list_ascii_of_string s).
Proof.
  induction s as [|a s IH]; [reflexivity|].
  simpl. rewrite IH. destruct (ascii_dec c a) as [->|Hne].
  - rewrite Ascii.eqb_refl. destruct s; reflexivity.
  - destruct (Ascii.eqb_spec a c) as [->|_]; [congruence|]. reflexivity.
Qed.

(** Splitting on a class of characters is splitting on another one when the
    text has the same characters in both. *)
Lemma split_by_ext p q s :
  (forall a, In a (list_ascii_of_string s) -> p a = q a) ->
  split_by p s = split_by q s.
Proof.
  induction s as [|a s IH]; intros H; [reflexivity|].
  simpl. rewrite IH by (intros b Hb; apply H; right; exact Hb).
  rewrite (H a) by (left; reflexivity). reflexivity.
Qed.

(** Joining the pieces with the character they were split on gives the text
    back. *)
Lemma pieces_join (c : ascii) (s : string) :
  String.concat (String c "") (pieces (fun a => Ascii.eqb a c) s) = s.
Proof.
  unfold pieces. induction s as [|a s IH]; [reflexivity|].
  simpl. destruct (split_by (fun a => Ascii.eqb a c) s) as [x xs].
  destruct (Ascii.eqb_spec a c) as [->|Hne].
  - rewrite concat_cons2, IH. reflexivity.
  - destruct xs as [|y ys].
    + simpl in *. rewrite IH. reflexivity.
    + rewrite concat_cons2 in *. rewrite string_app_cons, IH. reflexivity.
Qed.

Lemma concat_snoc sep (l : list string) x :
  l <> [] ->
  String.concat sep (l ++ [x]) = String.concat sep l +:+ sep +:+ x.
Proof.
  induction l as [|a [|b l] IH]; intros Hl; [congruence|reflexivity|].
  change ((a :: b :: l) ++ [x])%list with (a :: b :: (l ++ [x]))%list.
  rewrite !concat_cons2.
  change (b :: (l ++ [x]))%list with ((b :: l) ++ [x])%list.
  rewrite IH by discriminate. rewrite !string_app_assoc. reflexivity.
Qed.

Lemma concat_removelast sep (l : list string) x y :
  String.concat sep (x :: y :: l)
  = String.concat sep (removelast (x :: y :: l)) +:+ sep +:+ List.last (x :: y :: l) "".
Proof.
  rewrite (app_removelast_last "" (l := x :: y :: l)) at 1 by discriminate.
  apply concat_snoc. destruct l; discriminate.
Qed.

Lemma pieces_single p s :
  existsb p (list_ascii_of_string s) = false -> pieces p s = [s].
Proof.
  unfold pieces. induction s as [|a s IH]; [reflexivity|].
  simpl. intros [Ha Hs]%orb_false_iff. rewrite Ha.
  specialize (IH Hs). destruct (split_by p s) as [x xs]. congruence.
Qed.

Lemma pieces_two p s :
  existsb p (list_ascii_of_string s) = true ->
  exists x y l, pieces p s = x :: y :: l.
Proof.
  unfold pieces. induction s as [|a s IH]; [discriminate|].
  simpl. destruct (split_by p s) as [x xs] eqn:Hs.
  destruct (p a) eqn:Ha; simpl.
  - intros _. eauto.
  - intros H. destruct (IH H) as (x' & y & l & Heq). injection Heq as -> ->. eauto.
Qed.

Lemma getProjectPathFromFile_uniform (c : ascii) (path : string) :
  is_slash c || is_backslash c = true ->
  (forall a, In a (list_ascii_of_string path) ->
             is_slash a || is_backslash a = Ascii.eqb a c) ->
  existsb (fun a => Ascii.eqb a c) (list_ascii_of_string path) = true ->
  OS.includes path backslash = is_backslash c ->
  getProjectPathFromFile path +:+ String c "" +:+ last_piece (fun a => Ascii.eqb a c) path
  = path.
Proof.
  intros Hc Hsame Hhas Hsep. unfold getProjectPathFromFile, last_piece.
  destruct (String.eqb_spec path "") as [->|_]; [discriminate Hhas|].
  assert (Hp : pieces (fun a => is_slash a || is_backslash a) path
               = pieces (fun a => Ascii.eqb a c) path).
  { unfold pieces. rewrite (split_by_ext _ (fun a => Ascii.eqb a c) path Hsame).
    reflexivity. }
  rewrite Hp, Hsep.
  assert (Hjoin : (if is_backslash c then backslash else slash) = String c "").
  { unfold is_slash, is_backslash, backslash, slash in *.
    destruct (N.eqb_spec (N_of_ascii c) 92) as [H92|_].
    - rewrite <- H92, ascii_N_embedding. reflexivity.
    - destruct (N.eqb_spec (N_of_ascii c) 47) as [H47|_]; [|discriminate Hc].
      rewrite <- H47, ascii_N_embedding. reflexivity. }
  rewrite Hjoin.
  destruct (pieces_two _ _ Hhas) as (x & y & l & Hl).
  rewrite <- (pieces_join c path) at 3. rewrite Hl. symmetry. apply concat_removelast.
Qed.

Lemma is_slash_eqb a : is_slash a = Ascii.eqb a (ascii_of_N 47).
Proof. destruct a as [[] [] [] [] [] [] [] []]; reflexivity. Qed.

Lemma is_backslash_eqb a : is_backslash a = Ascii.eqb a (ascii_of_N 92).
Proof. destruct a as [[] [] [] [] [] [] [] []]; reflexivity. Qed.

Lemma existsb_false_In {A} (p : A -> bool) l a :
  existsb p l = false -> In a l -> p a = false.
Proof.
  induction l as [|b l IH]; simpl; [tauto|].
  intros [Hb Hl]%orb_false_iff [<-|Hin]; auto.
Qed.

(** X12.  getProjectPathFromFile takes the file name off a path and nothing
    else when the path is written with one kind of separator: the result,
    the separator and the last piece make the path again, with slashes as
    with backslashes.  A path without any separator has the empty project
    path. *)
Theorem getProjectPathFromFile_round_trip (path : string) :
  (OS.includes path slash = false -> OS.includes path backslash = false ->
   getProjectPathFromFile path = "") /\
  (OS.includes path slash = true -> OS.includes path backslash = false ->
   getProjectPathFromFile path +:+ slash +:+ last_piece is_slash path = path) /\
  (OS.includes path slash = false -> OS.includes path backslash = true ->
   getProjectPathFromFile path +:+ backslash +:+ last_piece is_backslash path = path).
Proof.
  unfold slash, backslash. rewrite !includes_single.
  split; [|split]; intros Hs Hb.
  - unfold getProjectPathFromFile.
    destruct (String.eqb path ""); [reflexivity|].
    rewrite pieces_single; [reflexivity|].
    apply not_true_iff_false. intros [a [Hin Ha]]%existsb_exists.
    apply orb_true_iff in Ha as [Ha|Ha].
    + rewrite is_slash_eqb in Ha.
      rewrite (existsb_false_In _ _ a Hs Hin) in Ha. discriminate.
    + rewrite is_backslash_eqb in Ha.
      rewrite (existsb_false_In _ _ a Hb Hin) in Ha. discriminate.
  - assert (Hl : last_piece is_slash path
                 = last_piece (fun a => Ascii.eqb a (ascii_of_N 47)) path).
    { unfold last_piece, pieces.
      rewrite (split_by_ext is_slash (fun a => Ascii.eqb a (ascii_of_N 47)))
        by (intros; apply is_slash_eqb). reflexivity. }
    rewrite Hl. apply getProjectPathFromFile_uniform; try reflexivity; try exact Hs.
    + intros a Hin. rewrite is_backslash_eqb, (existsb_false_In _ _ a Hb Hin).
      rewrite orb_false_r. apply is_slash_eqb.
    + unfold backslash. rewrite includes_single. exact Hb.
  - assert (Hl : last_piece is_backslash path
                 = last_piece (fun a => Ascii.eqb a (ascii_of_N 92)) path).
    { unfold last_piece, pieces.
      rewrite (split_by_ext is_backslash (fun a => Ascii.eqb a (ascii_of_N 92)))
        by (intros; apply is_backslash_eqb). reflexivity. }
    rewrite Hl. apply getProjectPathFromFile_uniform; try reflexivity; try exact Hb.
    + intros a Hin. rewrite is_slash_eqb, (existsb_false_In _ _ a Hs Hin).
      apply is_backslash_eqb.
    + unfold backslash. rewrite includes_single. exact Hb.
Qed.

(** What follows the last separator of a text. *)
Lemma last_piece_after p before c name :
  p c = true ->
  existsb p (list_ascii_of_string name) = false ->
  last_piece p (before +:+ String c name) = name.
Proof.
  intros Hc Hname. unfold last_piece.
  induction before as [|a before IH].
  - change ("" +:+ String c name) with (String c name).
    pose proof (pieces_single p name Hname) as Hn.
    unfold pieces in *. simpl. destruct (split_by p name) as [x xs].
    injection Hn as -> ->. rewrite Hc. reflexivity.
  - rewrite string_app_cons.
    assert (Hhas : existsb p (list_ascii_of_string (before +:+ String c name)) = true).
    { clear IH. induction before as [|b before IHb].
      - change ("" +:+ String c name) with (String c name). simpl. rewrite Hc.
        reflexivity.
      - rewrite string_app_cons. simpl. rewrite IHb. apply orb_true_r. }
    destruct (pieces_two p _ Hhas) as (x & y & l & Hl).
    rewrite Hl in IH. unfold pieces in *. simpl.
    destruct (split_by p (before +:+ String c name)) as [x' xs'].
    injection Hl as -> ->. destruct (p a); exact IH.
Qed.

Lemma no_slash_existsb s :
  OS.includes s slash = false -> existsb is_slash (list_ascii_of_string s) = false.
Proof.
  unfold slash. rewrite includes_single. intros <-.
  induction (list_ascii_of_string s) as [|a l IH]; [reflexivity|].
  simpl. rewrite IH, is_slash_eqb. reflexivity.
Qed.

Lemma no_backslash_existsb s :
  OS.includes s backslash = false ->
  existsb is_backslash (list_ascii_of_string s) = false.
Proof.
  unfold backslash. rewrite includes_single. intros <-.
  induction (list_ascii_of_string s) as [|a l IH]; [reflexivity|].
  simpl. rewrite IH, is_backslash_eqb. reflexivity.
Qed.

(** The last piece between slashes is empty exactly for the empty text and
    for a text that ends in a slash. *)
Lemma last_piece_empty path :
  last_piece is_slash path = "" <->
  path = "" \/ exists before, path = before +:+ slash.
Proof.
  split.
  - intros He.
    assert (Hp : pieces is_slash path
                 = pieces (fun a => Ascii.eqb a (ascii_of_N 47)) path).
    { unfold pieces.
      rewrite (split_by_ext is_slash (fun a => Ascii.eqb a (ascii_of_N 47)))
        by (intros; apply is_slash_eqb). reflexivity. }
    pose proof (pieces_join (ascii_of_N 47) path) as Hjoin.
    unfold last_piece in He. rewrite Hp in He.
    destruct (pieces (fun a => Ascii.eqb a (ascii_of_N 47)) path)
      as [|x [|y l]] eqn:Hl.
    + left. rewrite <- Hjoin. reflexivity.
    + left. rewrite <- Hjoin. simpl in He |- *. exact He.
    + right. rewrite concat_removelast, He, string_app_nil_r in Hjoin.
      eexists. symmetry. exact Hjoin.
  - intros [->|[before ->]]; [reflexivity|].
    apply (last_piece_after is_slash before (ascii_of_N 47) ""); reflexivity.
Qed.

(** X13.  The title that a project path gives a chat tab is never empty.
    It is what follows the last slash of the path whenever that is not
    empty: the whole path when the path has no slash, such as a Windows
    path, and the name after the last slash otherwise.  The pieces between
    backslashes are looked at only when the path is empty or ends in a
    slash: the title is then the last of them, which is the whole path when
    the path has no backslash, and [Session] when that piece is empty
    too. *)
Theorem dirName_of_path (path : string) :
  dirName path <> "" /\
  (last_piece is_slash path <> "" -> dirName path = last_piece is_slash path) /\
  (last_piece is_slash path = "" <->
   path = "" \/ exists before, path = before +:+ slash) /\
  (path <> "" -> OS.includes path slash = false -> dirName path = path) /\
  (forall before name,
      path = before +:+ slash +:+ name ->
      name <> "" ->
      OS.includes name slash = false ->
      dirName path = name) /\
  (last_piece is_slash path = "" ->
   dirName path
   = (if String.eqb (last_piece is_backslash path) "" then "Session"
      else last_piece is_backslash path) /\
   (path <> "" -> OS.includes path backslash = false -> dirName path = path)).
Proof.
  assert (Hfirst : last_piece is_slash path <> "" ->
                   dirName path = last_piece is_slash path).
  { intros Hne. unfold dirName.
    destruct (String.eqb_spec (last_piece is_slash path) ""); [contradiction|].
    reflexivity. }
  split; [|split; [exact Hfirst|split; [apply last_piece_empty|split; [|split]]]].
  - unfold dirName.
    destruct (String.eqb_spec (last_piece is_slash path) "") as [_|Ha];
      [|exact Ha].
    destruct (String.eqb_spec (last_piece is_backslash path) "") as [_|Hb];
      [discriminate | exact Hb].
  - intros Hne Hs.
    assert (Hl : last_piece is_slash path = path).
    { unfold last_piece. rewrite (pieces_single is_slash path); [reflexivity|].
      apply no_slash_existsb, Hs. }
    rewrite Hfirst; rewrite Hl; auto.
  - intros before name -> Hne Hs.
    assert (Hl : last_piece is_slash (before +:+ slash +:+ name) = name).
    { apply (last_piece_after is_slash before (ascii_of_N 47) name);
        [reflexivity | apply no_slash_existsb, Hs]. }
    rewrite Hfirst; rewrite Hl; auto.
  - intros He. split.
    + unfold dirName. rewrite He. simpl.
      destruct (String.eqb (last_piece is_backslash path) ""); reflexivity.
    + intros Hne Hb. unfold dirName. rewrite He. simpl.
      unfold last_piece. rewrite (pieces_single is_backslash path)
        by (apply no_backslash_existsb, Hb).
      simpl. destruct (String.eqb_spec path ""); [contradiction | reflexivity].
Qed.

End PathsFacts.

(** * Properties of the server list *)

Section MCPListFacts.
Import MCP.
Import MCPList.

Lemma scope_of_key server s :
  scope_of server = Some s ->
  server <> JNull /\ ToString (scope_or_local server) = Some s.
Proof.
  unfold scope_of, scope_or_local.
  destruct server as [| | | | |ps]; try discriminate. simpl.
  destruct (obj_get ps "scope") as [[| | |s0| |]|]; try discriminate.
  - intros [= <-]. split; [discriminate|]. simpl.
    destruct (String.eqb s0 ""); reflexivity.
  - intros [= <-]. split; [discriminate|]. reflexivity.
Qed.

Lemma members_app s l1 l2 :
  MCPList_members s (l1 ++ l2) = (MCPList_members s l1 ++ MCPList_members s l2)%list.
Proof. apply filter_app. Qed.

Lemma group_typed acc seen server s :
  scope_of server = Some s ->
  prototype_member s = false ->
  MCPList_grouped acc seen ->
  exists acc',
    group acc server = Some acc' /\ MCPList_grouped acc' (seen ++ [server]).
Proof.
  intros Hs Hp Hinv. destruct (scope_of_key _ _ Hs) as [Hn Hk].
  unfold group. rewrite Hk. simpl.
  assert (Hg : exists l,
             (match server with JNull => None | _ =>
                match obj_get
                        match obj_get acc s with
                        | Some v => if truthy v then acc else obj_set acc s (JArr [])
                        | None => if prototype_member s then acc
                                  else obj_set acc s (JArr [])
                        end s with
                | Some (JArr l) =>
                    Some (obj_set
                            match obj_get acc s with
                            | Some v => if truthy v then acc else obj_set acc s (JArr [])
                            | None => if prototype_member s then acc
                                      else obj_set acc s (JArr [])
                            end s (JArr (l ++ [server])))
                | _ => None
                end end)
             = Some (obj_set
                       match obj_get acc s with
                       | Some v => if truthy v then acc else obj_set acc s (JArr [])
                       | None => if prototype_member s then acc
                                 else obj_set acc s (JArr [])
                       end s (JArr (l ++ [server])))
             /\ l = MCPList_members s seen
             /\ forall k, k <> s ->
                  obj_get
                    match obj_get acc s with
                    | Some v => if truthy v then acc else obj_set acc s (JArr [])
                    | None => if prototype_member s then acc
                              else obj_set acc s (JArr [])
                    end k = obj_get acc k).
  { pose proof (Hinv s) as Hsget. rewrite Hp.
    destruct (MCPList_members s seen) as [|x l] eqn:Hm.
    - rewrite Hsget. exists []. rewrite obj_get_set, String.eqb_refl.
      split; [destruct server; congruence|]. split; [reflexivity|].
      intros k Hne. rewrite obj_get_set.
      destruct (String.eqb_spec s k); [congruence | reflexivity].
    - rewrite Hsget. simpl. rewrite Hsget. exists (x :: l).
      split; [destruct server; congruence|]. auto. }
  destruct Hg as (l & Hrun & Hl & Hother).
  destruct server; try congruence; simpl in Hrun |- *;
    (eexists; split; [exact Hrun|]);
    intros k; rewrite obj_get_set, members_app;
    (destruct (String.eqb_spec s k) as [<-|Hne];
     [ unfold MCPList_members at 2; rewrite filter_cons_True by exact Hs;
       rewrite filter_nil, Hl;
       destruct (MCPList_members s seen); reflexivity
     | unfold MCPList_members at 2;
       rewrite filter_cons_False by (rewrite Hs; congruence);
       rewrite filter_nil, app_nil_r, Hother by congruence; apply Hinv ]).
Qed.

Lemma reduce_typed servers : forall acc seen,
  Forall (fun server => exists s, scope_of server = Some s /\
                                  prototype_member s = false) servers ->
  MCPList_grouped acc seen ->
  exists groups,
    reduce acc servers = Some groups /\ MCPList_grouped groups (seen ++ servers).
Proof.
  induction servers as [|server servers IH]; intros acc seen Hall Hinv.
  - exists acc. rewrite app_nil_r. auto.
  - apply Forall_cons in Hall as [(s & Hs & Hp) Hall].
    destruct (group_typed acc seen server s Hs Hp Hinv) as (acc' & Hg & Hinv').
    destruct (IH acc' (seen ++ [server])%list Hall Hinv') as (groups & Hr & Hfin).
    exists groups. simpl. rewrite Hg. simpl. split; [exact Hr|].
    rewrite <- app_assoc in Hfin. exact Hfin.
Qed.

(** No own property of the accumulator carries the name of a member of the
    prototype. *)
Lemma group_keeps_members_out acc server acc' :
  (forall k, prototype_member k = true -> obj_get acc k = None) ->
  group acc server = Some acc' ->
  (forall k, prototype_member k = true -> obj_get acc' k = None) /\
  (forall s, scope_of server = Some s -> prototype_member s = false).
Proof.
  intros Hinv Hg.
  assert (Hkey : exists scope,
             ToString (scope_or_local server) = Some scope /\
             prototype_member scope = false /\
             forall k, k <> scope -> obj_get acc' k = obj_get acc k).
  { unfold group in Hg.
    destruct (ToString (scope_or_local server)) as [scope|] eqn:Hk;
      [|destruct server; discriminate].
    exists scope. split; [reflexivity|].
    assert (Hg' :
              match obj_get
                      match obj_get acc scope with
                      | Some v => if truthy v then acc else obj_set acc scope (JArr [])
                      | None => if prototype_member scope then acc
                                else obj_set acc scope (JArr [])
                      end scope with
              | Some (JArr l) =>
                  Some (obj_set
                          match obj_get acc scope with
                          | Some v => if truthy v then acc
                                      else obj_set acc scope (JArr [])
                          | None => if prototype_member scope then acc
                                    else obj_set acc scope (JArr [])
                          end scope (JArr (l ++ [server])))
              | _ => None
              end = Some acc')
      by (destruct server; first [discriminate | exact Hg]).
    clear Hg.
    destruct (prototype_member scope) eqn:Hp.
    - rewrite (Hinv scope Hp) in Hg'. rewrite (Hinv scope Hp) in Hg'. discriminate.
    - split; [reflexivity|]. intros k Hne.
      destruct (obj_get _ scope) as [[| | | |l|]|] in Hg'; try discriminate.
      injection Hg' as <-. rewrite obj_get_set.
      destruct (String.eqb_spec scope k); [congruence|].
      destruct (obj_get acc scope) as [v|]; [destruct (truthy v)|];
        try reflexivity; rewrite obj_get_set;
        destruct (String.eqb_spec scope k); congruence. }
  destruct Hkey as (scope & Hk & Hp & Hother). split.
  - intros k Hk'. rewrite Hother by congruence. auto.
  - intros s Hs. apply scope_of_key in Hs as [_ Hs]. congruence.
Qed.

Lemma reduce_member_scope servers : forall acc server s,
  (forall k, prototype_member k = true -> obj_get acc k = None) ->
  In server servers ->
  scope_of server = Some s ->
  prototype_member s = true ->
  reduce acc servers = None.
Proof.
  induction servers as [|x servers IH]; intros acc server s Hinv Hin Hs Hp;
    [destruct Hin|].
  simpl. destruct (group acc x) as [acc'|] eqn:Hg; [|reflexivity]. simpl.
  destruct (group_keeps_members_out _ _ _ Hinv Hg) as [Hinv' Hx].
  destruct Hin as [->|Hin].
  - rewrite (Hx s Hs) in Hp. discriminate.
  - eapply IH; eauto.
Qed.

(** X14.  serversByScope files every server of the list under its scope,
    [local] when the scope is missing or empty, in the order of the list,
    and has no group for a scope that no server carries, when no scope
    names a member of the prototype of objects. *)
Theorem serversByScope_groups (servers : list json) :
  Forall (fun server => exists s, scope_of server = Some s /\
                                  prototype_member s = false) servers ->
  exists groups,
    serversByScope servers = Some groups /\
    forall s,
      obj_get groups s =
        match MCPList_members s servers with
        | [] => None
        | l => Some (JArr l)
        end.
Proof.
  intros Hall.
  destruct (reduce_typed servers [] [] Hall) as (groups & Hr & Hfin).
  - intros s. reflexivity.
  - exists groups. split; [exact Hr | exact Hfin].
Qed.

(** X15.  One server whose scope names a member of the prototype of
    objects, such as [constructor] or [toString], makes the grouping throw
    for the whole list, wherever the server stands in it. *)
Theorem serversByScope_member_scope_throws (servers : list json) (server : json)
    (s : string) :
  In server servers ->
  scope_of server = Some s ->
  prototype_member s = true ->
  serversByScope servers = None.
Proof.
  intros Hin Hs Hp. unfold serversByScope.
  eapply reduce_member_scope; eauto.
Qed.

(** X16.  toggleExpanded changes the membership of the one name it is given
    and of no other, and toggling the same name twice gives the set back. *)
Theorem toggleExpanded_flips (prev : gset string) (serverName : string) :
  (forall name, name ∈ toggleExpanded prev serverName <->
                (name = serverName /\ serverName ∉ prev) \/
                (name <> serverName /\ name ∈ prev)) /\
  toggleExpanded (toggleExpanded prev serverName) serverName = prev.
Proof.
  assert (Hmem : forall name, name ∈ toggleExpanded prev serverName <->
                  (name = serverName /\ serverName ∉ prev) \/
                  (name <> serverName /\ name ∈ prev)).
  { intros name. unfold toggleExpanded.
    case_bool_decide as Hin;
      rewrite ?elem_of_difference, ?elem_of_union, ?elem_of_singleton;
      destruct (decide (name = serverName)) as [->|Hne]; tauto. }
  split; [exact Hmem|].
  apply set_eq. intros x. unfold toggleExpanded at 1.
  case_bool_decide as Hin;
    rewrite ?elem_of_difference, ?elem_of_union, ?elem_of_singleton;
    apply Hmem in Hin || (rewrite Hmem in Hin);
    rewrite Hmem;
    destruct (decide (x = serverName)) as [->|Hne];
    destruct (decide (serverName ∈ prev)); tauto.
Qed.


Lemma refreshed_lookup results : forall acc name,
  name <> "__proto__" ->
  obj_get (refreshed acc results) name =
    match last_outcome name results with
    | Some r => Some (tools_recorded r)
    | None => obj_get acc name
    end.
Proof.
  induction results as [|[n r] results IH]; intros acc name Hne; [reflexivity|].
  assert (Hstep : refreshed acc ((n, r) :: results)
                  = refreshed (obj_assign acc n (tools_recorded r)) results)
    by (destruct r; reflexivity).
  rewrite Hstep, IH by exact Hne. simpl.
  destruct (last_outcome name results); [reflexivity|].
  unfold obj_assign.
  destruct (String.eqb_spec n "__proto__") as [->|Hn].
  - destruct (String.eqb_spec "__proto__" name); [congruence | reflexivity].
  - rewrite obj_get_set. destruct (String.eqb n name); reflexivity.
Qed.

Lemma refreshed_no_proto results : forall acc,
  obj_get (refreshed acc results) "__proto__" = obj_get acc "__proto__".
Proof.
  induction results as [|[n r] results IH]; intros acc; [reflexivity|].
  assert (Hstep : refreshed acc ((n, r) :: results)
                  = refreshed (obj_assign acc n (tools_recorded r)) results)
    by (destruct r; reflexivity).
  rewrite Hstep, IH. unfold obj_assign.
  destruct (String.eqb_spec n "__proto__") as [->|Hn]; [reflexivity|].
  rewrite obj_get_set. destruct (String.eqb_spec n "__proto__"); congruence.
Qed.

(** X17.  A refresh of all statuses builds its mapping from nothing: a
    server listed in the refresh gets the tool list of its last outcome,
    the empty list when the request was rejected, and a name that is not
    listed has no entry afterwards, whatever the mapping held before.  A
    server named [__proto__] never gets an entry. *)
Theorem refresh_records_last_outcome {J : Json} (st : State)
    (results : list (string * mcpGet)) :
  exists ps,
    serverTools (handleRefreshAllStatuses st results) = JObj ps /\
    (forall name, name <> "__proto__" ->
       obj_get ps name = tools_recorded <$> last_outcome name results) /\
    obj_get ps "__proto__" = None.
Proof.
  exists (refreshed [] results). split; [reflexivity|]. split.
  - intros name Hne. rewrite refreshed_lookup by exact Hne.
    destruct (last_outcome name results); reflexivity.
  - apply refreshed_no_proto.
Qed.

Lemma step_in_sync {J : Json} st e :
  let st' := MCPList_step st e in
  storage st' = Some (JSON_stringify (serverTools st')) \/
  (serverTools st' = serverTools st /\ storage st' = storage st).
Proof.
  destruct e as [name [|running]|results]; simpl; auto.
Qed.

(** X18.  Over any sequence of connection tests and refreshes, with any
    outcomes, the stored item is the serialization of the current mapping
    as soon as one of them has changed the mapping: either the item and the
    mapping are both as they were at the start, or the item holds the
    mapping. *)
Theorem storage_follows_mapping {J : Json} (events : list MCPList_event) (st : State) :
  let st' := MCPList_run st events in
  storage st' = Some (JSON_stringify (serverTools st')) \/
  (serverTools st' = serverTools st /\ storage st' = storage st).
Proof.
  revert st. induction events as [|e events IH]; intros st; [right; auto|].
  unfold MCPList_run in *. simpl.
  destruct (IH (MCPList_step st e)) as [Hs|[Ht Hs]]; [left; exact Hs|].
  simpl in Ht, Hs. rewrite Ht, Hs. apply step_in_sync.
Qed.

(** X19.  A mapping written by a test that resolved or by a refresh comes
    back at the next mount, when the codec reads its own serialization of
    that mapping back and the serialization is not the empty text. *)
Theorem written_mapping_survives_remount {J : Json} (st : State) (e : MCPList_event) :
  (forall name, e <> TestConnection name Rejected) ->
  let st' := MCPList_step st e in
  JSON_parse (JSON_stringify (serverTools st')) = Some (serverTools st') ->
  JSON_stringify (serverTools st') <> "" ->
  loadPersistedTools (mounted (storage st')) =
    ({| serverTools := serverTools st'; testingServer := None;
        storage := storage st' |}, []).
Proof.
  intros Hw st' Hp Hn.
  assert (Hs : storage st' = Some (JSON_stringify (serverTools st'))).
  { subst st'. destruct e as [name [|running]|results]; simpl; try reflexivity.
    destruct (Hw name). reflexivity. }
  unfold loadPersistedTools. rewrite Hs. simpl.
  destruct (String.eqb_spec (JSON_stringify (serverTools st')) ""); [contradiction|].
  rewrite Hp. reflexivity.
Qed.


End MCPListFacts.

(** * Properties of the server form *)

Section MCPEditFacts.
Import MCPEdit.

Lemma env_of_lookup envVars : forall acc k,
  k <> "__proto__" ->
  obj_get
    (fold_left
       (fun acc v =>
          if negb (blank (key v)) && negb (blank (value v))
          then obj_assign acc (key v) (JStr (value v))
          else acc) envVars acc) k =
    match last_value k envVars with
    | Some v => Some (JStr v)
    | None => obj_get acc k
    end.
Proof.
  induction envVars as [|e envVars IH]; intros acc k Hne; [reflexivity|].
  simpl. rewrite IH by exact Hne.
  destruct (last_value k envVars); [reflexivity|].
  destruct (negb (blank (key e)) && negb (blank (value e))) eqn:Hv.
  - apply andb_prop in Hv as [-> ->]. rewrite !andb_true_r.
    unfold obj_assign.
    destruct (String.eqb_spec (key e) "__proto__") as [Hp|Hp].
    + destruct (String.eqb_spec (key e) k); [congruence | reflexivity].
    + rewrite obj_get_set. destruct (String.eqb (key e) k); reflexivity.
  - rewrite <- andb_assoc, Hv, andb_false_r. reflexivity.
Qed.

Lemma env_of_no_proto envVars : forall acc,
  obj_get
    (fold_left
       (fun acc v =>
          if negb (blank (key v)) && negb (blank (value v))
          then obj_assign acc (key v) (JStr (value v))
          else acc) envVars acc) "__proto__" = obj_get acc "__proto__".
Proof.
  induction envVars as [|e envVars IH]; intros acc; [reflexivity|].
  simpl. rewrite IH.
  destruct (negb (blank (key e)) && negb (blank (value e))); [|reflexivity].
  unfold obj_assign.
  destruct (String.eqb_spec (key e) "__proto__") as [Hp|Hp]; [reflexivity|].
  rewrite obj_get_set. destruct (String.eqb_spec (key e) "__proto__"); congruence.
Qed.

(** X20.  The [env] object that handleSave sends holds, under each key, the
    value of the last row that has that key and is neither blank in its key
    nor in its value; a key that only blank rows carry, or none, is absent.
    The key [__proto__] is never sent. *)
Theorem env_of_last_valid_row (envVars : list EnvironmentVariable) :
  (forall k, k <> "__proto__" ->
     obj_get (env_of envVars) k = JStr <$> last_value k envVars) /\
  obj_get (env_of envVars) "__proto__" = None.
Proof.
  split.
  - intros k Hne. unfold env_of. rewrite env_of_lookup by exact Hne.
    destruct (last_value k envVars); reflexivity.
  - unfold env_of. rewrite env_of_no_proto. reflexivity.
Qed.

Lemma ws2_space x : ws2 x " " = false.
Proof. unfold ws2. apply andb_false_r. Qed.

Lemma ws3_space_mid x c : ws3 x " " c = false.
Proof.
  unfold ws3. cbv zeta.
  change (N_of_ascii " ") with 32%N.
  change (32 =? 154)%N with false. change (32 =? 128)%N with false.
  change (32 =? 129)%N with false. change (32 =? 187)%N with false.
  rewrite !andb_false_r. reflexivity.
Qed.

Lemma ws3_space_last x y : ws3 x y " " = false.
Proof.
  unfold ws3. cbv zeta.
  change (N_of_ascii " ") with 32%N.
  change (32 =? 128)%N with false. change (32 =? 159)%N with false.
  change (32 =? 191)%N with false. change (32 =? 168)%N with false.
  change (32 =? 169)%N with false. change (32 =? 175)%N with false.
  change (128 <=? 32)%N with false.
  rewrite !andb_false_r. reflexivity.
Qed.

Lemma ws_free_cons a l :
  ws_free (a :: l) = negb (ws_start (a :: l)) && ws_free l.
Proof.
  destruct l as [|b [|c l]]; simpl; rewrite ?orb_false_r, ?andb_true_r,
    ?negb_orb, ?andb_assoc; reflexivity.
Qed.

Lemma split_ws_char in_run x l :
  ws_start (x :: l) = false ->
  split_ws in_run (x :: l) = (x :: (split_ws false l).1, (split_ws false l).2).
Proof.
  intros H. simpl in H.
  apply orb_false_elim in H as [H1 H].
  destruct l as [|b [|c l]].
  - simpl. rewrite H1. reflexivity.
  - apply orb_false_elim in H as [H2 _].
    change (split_ws in_run [x; b])
      with (let r := split_ws false [b] in
            if ws1 x then (if in_run then split_ws true [b]
                           else ([], (split_ws true [b]).1 :: (split_ws true [b]).2))
            else if ws2 x b then (if in_run then split_ws true []
                                  else ([], (split_ws true []).1 :: (split_ws true []).2))
            else (x :: r.1, r.2)).
    cbv zeta. rewrite H1, H2. reflexivity.
  - apply orb_false_elim in H as [H2 H3].
    change (split_ws in_run (x :: b :: c :: l))
      with (let r := split_ws false (b :: c :: l) in
            if ws1 x then (if in_run then split_ws true (b :: c :: l)
                           else ([], (split_ws true (b :: c :: l)).1
                                     :: (split_ws true (b :: c :: l)).2))
            else if ws2 x b then (if in_run then split_ws true (c :: l)
                                  else ([], (split_ws true (c :: l)).1
                                            :: (split_ws true (c :: l)).2))
            else if ws3 x b c then (if in_run then split_ws true l
                                    else ([], (split_ws true l).1 :: (split_ws true l).2))
            else (x :: r.1, r.2)).
    cbv zeta. rewrite H1, H2, H3. reflexivity.
Qed.

Lemma trim_start_char x l :
  ws_start (x :: l) = false -> trim_start (x :: l) = x :: l.
Proof.
  intros H. simpl in H.
  apply orb_false_elim in H as [H1 H].
  destruct l as [|b [|c l]].
  - simpl. rewrite H1. reflexivity.
  - apply orb_false_elim in H as [H2 _]. simpl. rewrite H1, H2. reflexivity.
  - apply orb_false_elim in H as [H2 H3].
    change (trim_start (x :: b :: c :: l))
      with (if ws1 x then trim_start (b :: c :: l)
            else if ws2 x b then trim_start (c :: l)
            else if ws3 x b c then trim_start l else x :: b :: c :: l).
    rewrite H1, H2, H3. reflexivity.
Qed.

Lemma ws_start_tail x w rest :
  ws_start (x :: w) = false -> ws_start (x :: w ++ " "%char :: rest) = false.
Proof.
  intros H. destruct w as [|y [|z w]]; simpl in H |- *.
  - rewrite orb_false_r in H. rewrite H, ws2_space. simpl.
    destruct rest; [reflexivity | apply ws3_space_mid].
  - rewrite orb_false_r in H. rewrite ws3_space_last, orb_false_r. exact H.
  - exact H.
Qed.

Lemma split_ws_word w : forall in_run rest,
  w <> [] ->
  ws_free w = true ->
  split_ws in_run (w ++ " "%char :: rest)
  = (w, (split_ws true rest).1 :: (split_ws true rest).2).
Proof.
  induction w as [|x w IH]; intros in_run rest Hne Hfree; [congruence|].
  rewrite ws_free_cons in Hfree. apply andb_prop in Hfree as [Hs Hfree].
  apply negb_true_iff in Hs.
  change ((x :: w) ++ " "%char :: rest)%list with (x :: (w ++ " "%char :: rest))%list.
  rewrite split_ws_char by (apply ws_start_tail; exact Hs).
  destruct w as [|y w].
  - reflexivity.
  - rewrite IH by (congruence || assumption). reflexivity.
Qed.

Lemma split_ws_last_word w : forall in_run,
  ws_free w = true -> split_ws in_run w = (w, []).
Proof.
  induction w as [|x w IH]; intros in_run Hfree; [reflexivity|].
  rewrite ws_free_cons in Hfree. apply andb_prop in Hfree as [Hs Hfree].
  apply negb_true_iff in Hs.
  rewrite split_ws_char, IH by assumption. reflexivity.
Qed.

Lemma split_ws_join words : forall w in_run,
  Forall (fun w => w <> [] /\ ws_free w = true) (w :: words) ->
  split_ws in_run (join_space (w :: words)) = (w, words).
Proof.
  induction words as [|w' words IH]; intros w in_run Hall.
  - apply Forall_cons in Hall as [[_ Hfree] _]. apply split_ws_last_word, Hfree.
  - apply Forall_cons in Hall as [[Hne Hfree] Hall].
    change (join_space (w :: w' :: words))
      with (w ++ " "%char :: join_space (w' :: words))%list.
    rewrite split_ws_word, IH by assumption. reflexivity.
Qed.

Lemma join_space_not_blank w words :
  w <> [] -> ws_free w = true -> blank_chars (join_space (w :: words)) = false.
Proof.
  intros Hne Hfree. destruct w as [|x w]; [congruence|].
  rewrite ws_free_cons in Hfree. apply andb_prop in Hfree as [Hs _].
  apply negb_true_iff in Hs. unfold blank_chars.
  destruct words as [|w' words].
  - simpl join_space. rewrite trim_start_char by exact Hs. reflexivity.
  - change (join_space ((x :: w) :: w' :: words))
      with (x :: (w ++ " "%char :: join_space (w' :: words)))%list.
    rewrite trim_start_char by (apply ws_start_tail; exact Hs). reflexivity.
Qed.

Lemma list_ascii_of_string_app s t :
  list_ascii_of_string (s +:+ t)
  = (list_ascii_of_string s ++ list_ascii_of_string t)%list.
Proof.
  induction s as [|a s IH]; [reflexivity|].
  change (String a s +:+ t) with (String a (s +:+ t)).
  simpl. rewrite IH. reflexivity.
Qed.

Lemma concat_join_space args :
  list_ascii_of_string (String.concat " " args)
  = join_space (list_ascii_of_string <$> args).
Proof.
  induction args as [|a [|b args] IH]; [reflexivity | reflexivity |].
  change (String.concat " " (a :: b :: args))
    with (a +:+ " " +:+ String.concat " " (b :: args)).
  rewrite !list_ascii_of_string_app, IH. reflexivity.
Qed.

(** X21.  The arguments of a server come back from the form as they went
    in: joined by spaces into the text field and split again at the save,
    an argument list whose entries are non-empty and free of white space is
    unchanged, and a server without arguments is saved with none. *)
Theorem parsedArgs_round_trip (args : list string) :
  Forall (fun a => a <> "" /\ ws_free (list_ascii_of_string a) = true) args ->
  parsedArgs (args_text (Some args)) = args /\
  parsedArgs (args_text None) = [].
Proof.
  intros Hall. split; [|reflexivity].
  destruct args as [|a args]; [reflexivity|].
  assert (Hwords : Forall (fun w => w <> [] /\ ws_free w = true)
                     (list_ascii_of_string <$> (a :: args))).
  { apply Forall_fmap. eapply Forall_impl; [exact Hall|].
    intros s [Hne Hfree]. split; [|exact Hfree].
    simpl. destruct s; [congruence | discriminate]. }
  unfold parsedArgs, blank, split_whitespace, args_text.
  rewrite concat_join_space.
  change (list_ascii_of_string <$> a :: args)
    with (list_ascii_of_string a :: (list_ascii_of_string <$> args)) in *.
  pose proof Hwords as Hhead. apply Forall_cons in Hhead as [[Hne Hfree] _].
  rewrite join_space_not_blank by assumption.
  rewrite split_ws_join by exact Hwords.
  cbn [fst snd fmap list_fmap].
  rewrite string_of_list_ascii_of_string. f_equal.
  clear. induction args as [|b args IH]; [reflexivity|].
  cbn [fmap list_fmap]. rewrite string_of_list_ascii_of_string. f_equal. exact IH.
Qed.

(** X22.  White space before the first argument of the text is not
    trimmed away before the split: when the text is not blank and starts
    with white space, the first argument sent is the empty string. *)
Theorem parsedArgs_leading_white_space (args : string) :
  blank args = false ->
  ws_start (list_ascii_of_string args) = true ->
  exists rest, parsedArgs args = "" :: rest.
Proof.
  intros Hb Hs. unfold parsedArgs. rewrite Hb. unfold split_whitespace.
  assert (H1 : (split_ws false (list_ascii_of_string args)).1 = []).
  { destruct (list_ascii_of_string args) as [|a [|b [|c l]]]; simpl in Hs |- *;
      try discriminate.
    - rewrite orb_false_r in Hs. rewrite Hs. reflexivity.
    - rewrite orb_false_r in Hs. destruct (ws1 a); [reflexivity|].
      simpl in Hs. rewrite Hs. reflexivity.
    - destruct (ws1 a); [reflexivity|]. destruct (ws2 a b); [reflexivity|].
      simpl in Hs. rewrite Hs. reflexivity. }
  rewrite H1. eexists. reflexivity.
Qed.


Lemma last_value_absent k ids : forall entries,
  k ∉ entries.*1 -> last_value k (env_rows ids entries) = None.
Proof.
  induction ids as [|i ids IH]; intros [|[k0 v0] entries] Hk; try reflexivity.
  rewrite fmap_cons, not_elem_of_cons in Hk. destruct Hk as [Hne Hk].
  simpl in Hne. unfold env_rows in *. simpl. rewrite IH by exact Hk.
  destruct (String.eqb_spec k0 k); [congruence | reflexivity].
Qed.

Lemma last_value_rows k v ids : forall entries,
  length ids = length entries ->
  NoDup entries.*1 ->
  (k, v) ∈ entries ->
  last_value k (env_rows ids entries) = if blank k || blank v then None else Some v.
Proof.
  induction ids as [|i ids IH]; intros [|[k0 v0] entries] Hlen Hnd Hin;
    try discriminate; [apply elem_of_nil in Hin; destruct Hin|].
  rewrite fmap_cons in Hnd. apply NoDup_cons in Hnd as [Hk0 Hnd]. simpl in Hk0.
  injection Hlen as Hlen. apply elem_of_cons in Hin as [[= -> ->]|Hin].
  - unfold env_rows in *. simpl.
    pose proof (last_value_absent k0 ids entries Hk0) as Ha.
    unfold env_rows in Ha. rewrite Ha, String.eqb_refl. simpl.
    destruct (blank k0), (blank v0); reflexivity.
  - assert (Hne : k0 <> k).
    { intros ->. apply Hk0. apply (list_elem_of_fmap_2 fst) in Hin. exact Hin. }
    unfold env_rows in *. simpl. rewrite IH by assumption.
    destruct (blank k || blank v); [|reflexivity].
    destruct (String.eqb_spec k0 k); [congruence | reflexivity].
Qed.

(** X23.  A server opened in the form and saved with its rows untouched
    keeps the entries of its environment whose key and value are not blank
    and loses the others: an entry with an empty value is not sent. *)
Theorem untouched_rows_drop_blank_entries (ids : list string)
    (entries : list (string * string)) (k v : string) :
  length ids = length entries ->
  NoDup entries.*1 ->
  (k, v) ∈ entries ->
  k <> "__proto__" ->
  obj_get (env_of (env_rows ids entries)) k
  = if blank k || blank v then None else Some (JStr v).
Proof.
  intros Hlen Hnd Hin Hne. unfold env_of.
  rewrite env_of_lookup by exact Hne.
  rewrite (last_value_rows k v ids entries Hlen Hnd Hin).
  destruct (blank k || blank v); reflexivity.
Qed.


End MCPEditFacts.

(** * More properties of the tab listeners *)

Section TabsMore.
Import Tabs.
Variable generateTabId : list Tab -> string.

Lemma last_segment_no_slash path :
  existsb Paths.is_slash (list_ascii_of_string (last_segment path)) = false.
Proof.
  induction path as [|a rest IH]; [reflexivity|].
  simpl. fold (Paths.is_slash a).
  destruct (Paths.is_slash a) eqn:Ha; [exact IH|].
  change (existsb (fun b => (N_of_ascii b =? 47)%N) (list_ascii_of_string rest))
    with (existsb Paths.is_slash (list_ascii_of_string rest)).
  destruct (existsb Paths.is_slash (list_ascii_of_string rest)) eqn:Hr; [exact IH|].
  simpl. rewrite Ha, Hr. reflexivity.
Qed.

Lemma last_segment_whole path :
  existsb Paths.is_slash (list_ascii_of_string path) = false ->
  last_segment path = path.
Proof.
  destruct path as [|a rest]; [reflexivity|].
  simpl. fold (Paths.is_slash a).
  intros [Ha Hr]%orb_false_iff. rewrite Ha.
  change (existsb (fun b => (N_of_ascii b =? 47)%N) (list_ascii_of_string rest))
    with (existsb Paths.is_slash (list_ascii_of_string rest)).
  rewrite Hr. reflexivity.
Qed.

Lemma last_segment_suffix path :
  exists before, path = before +:+ last_segment path.
Proof.
  induction path as [|a rest [before IH]]; [exists ""; reflexivity|].
  simpl.
  destruct (N_of_ascii a =? 47)%N;
    [|destruct (existsb _ (list_ascii_of_string rest))].
  - exists (String a before). rewrite string_app_cons, <- IH. reflexivity.
  - exists (String a before). rewrite string_app_cons, <- IH. reflexivity.
  - exists "". reflexivity.
Qed.

(** X24.  The title that the two listeners give a tab is never empty and
    holds no slash; unless it is the fallback [Session], it is the end of
    the project path of the session, and the whole path when the path is
    not empty and has no slash. *)
Theorem session_title_of_path (session : Session) :
  session_title session <> "" /\
  existsb Paths.is_slash (list_ascii_of_string (session_title session)) = false /\
  (session_title session = "Session" \/
   exists before, project_path session = before +:+ session_title session) /\
  (project_path session <> "" ->
   existsb Paths.is_slash (list_ascii_of_string (project_path session)) = false ->
   session_title session = project_path session).
Proof.
  unfold session_title.
  destruct (String.eqb_spec (last_segment (project_path session)) "") as [He|Hne].
  - split; [discriminate|]. split; [reflexivity|]. split; [left; reflexivity|].
    intros Hp Hs. rewrite (last_segment_whole _ Hs) in He. contradiction.
  - split; [exact Hne|]. split; [apply last_segment_no_slash|].
    split; [right; apply last_segment_suffix|].
    intros _ Hs. apply last_segment_whole, Hs.
Qed.

(** X25.  The two listeners that open a session do the same thing except in
    one case: when no tab holds the session and the active tab is a projects
    tab, which [claude-session-selected] turns into the chat instead of
    opening a new tab. *)
Theorem listeners_agree (r : Registry) (session : Session) :
  (is_Some (findTabBySessionId r (session_id session)) \/
   forall t, find (fun t => bool_decide (Some (id t) = activeTabId r)) (tabs r) = Some t ->
             type t <> projects) ->
  handleClaudeSessionSelected generateTabId r session
  = handleOpenSessionInTab generateTabId r session.
Proof.
  intros H. unfold handleClaudeSessionSelected, handleOpenSessionInTab.
  destruct (findTabBySessionId r (session_id session)) as [existingTab|];
    [reflexivity|].
  destruct H as [[t Ht]|H]; [discriminate|].
  destruct (find _ (tabs r)) as [t|]; [|reflexivity].
  specialize (H t eq_refl). destruct (type t); try reflexivity. contradiction.
Qed.

End TabsMore.


(** * The further properties on concrete inputs *)

Section FurtherExamples.
Import Web.
Import OS.
Import SessionList.
Import Paths.
Import MCP.
Import MCPList.
Import MCPEdit.
Existing Instance ecma_json.

(** The example's response touches neither the buffer nor the session id. *)
Lemma handleMessage_frame_witness :
  let st' := (handleMessage all_callbacks response_message initial).1.2 in
  accumulatedContent st' = accumulatedContent initial /\
  currentSessionId st' = currentSessionId initial.
Proof.
  pose proof (handleMessage_frame all_callbacks response_message initial)
    as (Ha & Hs & _).
  split; [apply Ha; reflexivity | apply Hs; reflexivity].
Defined.

(** The event that the web-mode setup sends to itself. *)
Lemma unknown_type_passes_through_witness :
  let payload := js_text "{'type':'test','message':'test event'}" in
  let st' :=
    setRawJsonlOutput (fun prev => prev ++ [JSON_stringify test_event])%list
      (setMessages (fun prev => prev ++ [test_event])%list initial) in
  ingest all_callbacks initial payload = (st', []) /\
  webEventHandler all_callbacks initial test_event = (st', []).
Proof.
  apply (unknown_type_passes_through all_callbacks initial
           (js_text "{'type':'test','message':'test event'}") test_event).
  - vm_compute. reflexivity.
  - discriminate.
  - reflexivity.
Defined.

(** The example's stream from the initial state. *)
Lemma raw_mirrors_kept_witness :
  raw_mirrors initial /\
  raw_mirrors (ingest_all all_callbacks initial example_stream).1 /\
  raw_mirrors (clearMessages (ingest_all all_callbacks initial example_stream).1).1.2.
Proof.
  split; [reflexivity|].
  apply (raw_mirrors_kept all_callbacks initial example_stream). reflexivity.
Defined.

(** A partial whose second tool call is [null]. *)
Lemma dropped_partial_still_accumulates_witness :
  let payload :=
    js_text "{'type':'partial','tool_calls':[{'partial_tool_call_index':0,'content':'Hel'},null]}" in
  let '(st', calls) := ingest all_callbacks initial payload in
  same_log initial st' /\
  calls = [ConsoleError "[TRACE] Failed to parse Claude stream message:"] /\
  buffer_holds (accumulatedContent st') ([] ++ [fragment 0 "Hel"]).
Proof.
  apply (dropped_partial_still_accumulates all_callbacks initial
           (js_text "{'type':'partial','tool_calls':[{'partial_tool_call_index':0,'content':'Hel'},null]}")
           (partial_message [fragment 0 "Hel"; JNull]) [fragment 0 "Hel"] []).
  - vm_compute. reflexivity.
  - reflexivity.
  - reflexivity.
  - constructor; [|constructor]. split; eexists; reflexivity.
  - intros i. reflexivity.
Defined.


(** A start followed by an error. *)
Lemma turn_ends_streaming_witness :
  let '(st', calls) :=
    ingest_all all_callbacks initial [start_payload; js_text "{'type':'error'}"] in
  isStreaming st' = false /\
  accumulatedContent st' = ∅ /\
  currentSessionId st' = currentSessionId initial /\
  messages st' = (messages initial ++ [start_message; JObj [("type", JStr "error")]])%list /\
  calls = if onStreamingChange all_callbacks
          then [StreamingChange true (currentSessionId initial);
                StreamingChange false (currentSessionId initial)]
          else [].
Proof.
  apply (turn_ends_streaming all_callbacks initial start_payload
           (js_text "{'type':'error'}") start_message (JObj [("type", JStr "error")])).
  - exact parse_start.
  - reflexivity.
  - vm_compute. reflexivity.
  - left. reflexivity.
Defined.

(** Forty-five sessions: the third page is the last and holds five. *)
Lemma page_sizes_witness :
  totalPages (seq 0 45) = 3 /\
  (1 <= length (currentSessions (seq 0 45) 3) <= 20)%nat /\
  currentSessions (seq 0 45) 4 = [].
Proof.
  assert (Ht : totalPages (seq 0 45) = 3) by reflexivity.
  split; [exact Ht|].
  pose proof (page_sizes (seq 0 45) 3 ltac:(lia)) as (H3 & _ & _).
  pose proof (page_sizes (seq 0 45) 4 ltac:(lia)) as (_ & H4 & _).
  split; [apply H3; rewrite Ht; lia | apply H4; rewrite Ht; lia].
Defined.

(** A file of a project, on each kind of path. *)
Lemma getProjectPathFromFile_round_trip_witness :
  getProjectPathFromFile "/home/me/project/CLAUDE.md" +:+ slash
    +:+ last_piece is_slash "/home/me/project/CLAUDE.md"
  = "/home/me/project/CLAUDE.md" /\
  getProjectPathFromFile "D:\Code\myproject\CLAUDE.md" +:+ backslash
    +:+ last_piece is_backslash "D:\Code\myproject\CLAUDE.md"
  = "D:\Code\myproject\CLAUDE.md".
Proof.
  pose proof (getProjectPathFromFile_round_trip "/home/me/project/CLAUDE.md")
    as (_ & Hs & _).
  pose proof (getProjectPathFromFile_round_trip "D:\Code\myproject\CLAUDE.md")
    as (_ & _ & Hb).
  split; [apply Hs; reflexivity | apply Hb; reflexivity].
Defined.

(** A Windows path is the title whole; a path with slashes gives its last
    name; a path that ends in a slash is the title whole as well. *)
Lemma dirName_of_path_witness :
  dirName "D:\Code\myproject" = "D:\Code\myproject" /\
  dirName "/home/me/myproject" = "myproject" /\
  dirName "/home/me/myproject/" = "/home/me/myproject/".
Proof.
  split; [|split].
  - pose proof (dirName_of_path "D:\Code\myproject") as (_ & _ & _ & H & _).
    apply H; [discriminate | reflexivity].
  - pose proof (dirName_of_path "/home/me/myproject") as (_ & _ & _ & _ & H & _).
    apply (H "/home/me" "myproject"); [reflexivity | discriminate | reflexivity].
  - pose proof (dirName_of_path "/home/me/myproject/") as (_ & _ & _ & _ & _ & H).
    destruct (H eq_refl) as [_ Hw]. apply Hw; [discriminate | reflexivity].
Defined.

(** Two servers of the user scope around one without a scope. *)
Lemma serversByScope_groups_witness :
  let a := JObj [("name", JStr "a"); ("scope", JStr "user")] in
  let b := JObj [("name", JStr "b")] in
  let c := JObj [("name", JStr "c"); ("scope", JStr "user")] in
  exists groups,
    serversByScope [a; b; c] = Some groups /\
    forall s,
      obj_get groups s =
        match MCPList_members s [a; b; c] with
        | [] => None
        | l => Some (JArr l)
        end.
Proof.
  apply (serversByScope_groups
           [JObj [("name", JStr "a"); ("scope", JStr "user")];
            JObj [("name", JStr "b")];
            JObj [("name", JStr "c"); ("scope", JStr "user")]]).
  constructor; [exists "user"; split; reflexivity|].
  constructor; [exists "local"; split; reflexivity|].
  constructor; [exists "user"; split; reflexivity|].
  constructor.
Defined.

(** A server whose scope is [constructor], after one of the user scope. *)
Lemma serversByScope_member_scope_throws_witness :
  serversByScope
    [JObj [("name", JStr "a"); ("scope", JStr "user")];
     JObj [("name", JStr "b"); ("scope", JStr "constructor")]] = None.
Proof.
  apply (serversByScope_member_scope_throws _
           (JObj [("name", JStr "b"); ("scope", JStr "constructor")]) "constructor").
  - right. left. reflexivity.
  - reflexivity.
  - reflexivity.
Defined.

(** A refresh of two servers, the second of which cannot be reached. *)
Lemma refresh_records_last_outcome_witness :
  let results := [("files", Resolved true); ("db", Rejected)] in
  exists ps,
    serverTools (handleRefreshAllStatuses (mounted None) results) = JObj ps /\
    obj_get ps "files" = Some (JArr [JStr "fetch"; JStr "list"]) /\
    obj_get ps "db" = Some (JArr []) /\
    obj_get ps "other" = None.
Proof.
  destruct (refresh_records_last_outcome (mounted None)
              [("files", Resolved true); ("db", Rejected)]) as (ps & Hps & Hget & _).
  exists ps. split; [exact Hps|].
  split; [|split]; rewrite Hget by discriminate; reflexivity.
Defined.

(** A first successful test, then a new mount. *)
Lemma written_mapping_survives_remount_witness :
  let st' := MCPList_step (mounted None) (TestConnection "files" (Resolved true)) in
  serverTools st' = JObj [("files", JArr [JStr "fetch"; JStr "list"])] /\
  loadPersistedTools (mounted (storage st')) =
    ({| serverTools := serverTools st'; testingServer := None;
        storage := storage st' |}, []).
Proof.
  split; [reflexivity|].
  apply (written_mapping_survives_remount (mounted None)
           (TestConnection "files" (Resolved true))).
  - intros name. discriminate.
  - vm_compute. reflexivity.
  - vm_compute. discriminate.
Defined.

(** Two rows for one key around a row with a blank value. *)
Lemma env_of_last_valid_row_witness :
  let rows :=
    [ {| id := "env-1"; key := "LEVEL"; value := "info" |};
      {| id := "env-2"; key := "TOKEN"; value := " " |};
      {| id := "env-3"; key := "LEVEL"; value := "debug" |} ] in
  obj_get (env_of rows) "LEVEL" = Some (JStr "debug") /\
  obj_get (env_of rows) "TOKEN" = None.
Proof.
  cbv zeta.
  pose proof (env_of_last_valid_row
                [ {| id := "env-1"; key := "LEVEL"; value := "info" |};
                  {| id := "env-2"; key := "TOKEN"; value := " " |};
                  {| id := "env-3"; key := "LEVEL"; value := "debug" |} ]) as [H _].
  split; rewrite H by discriminate; reflexivity.
Defined.

(** Two arguments. *)
Lemma parsedArgs_round_trip_witness :
  parsedArgs (args_text (Some ["--port"; "8080"])) = ["--port"; "8080"] /\
  parsedArgs (args_text None) = [].
Proof.
  apply (parsedArgs_round_trip ["--port"; "8080"]).
  constructor; [split; [discriminate | reflexivity]|].
  constructor; [split; [discriminate | reflexivity]|].
  constructor.
Defined.

(** The same two arguments after a space. *)
Lemma parsedArgs_leading_white_space_witness :
  exists rest, parsedArgs " --port 8080" = "" :: rest.
Proof.
  apply (parsedArgs_leading_white_space " --port 8080"); reflexivity.
Defined.

(** An environment with an empty value. *)
Lemma untouched_rows_drop_blank_entries_witness :
  let entries := [("DEBUG", ""); ("HOME", "/root")] in
  obj_get (env_of (env_rows ["env-1"; "env-2"] entries)) "DEBUG" = None /\
  obj_get (env_of (env_rows ["env-1"; "env-2"] entries)) "HOME" = Some (JStr "/root").
Proof.
  cbv zeta.
  assert (Hnd : NoDup [("DEBUG", ""); ("HOME", "/root")].*1).
  { constructor; [|constructor; [apply not_elem_of_nil | constructor]].
    intros Hin. apply list_elem_of_singleton in Hin. discriminate. }
  split.
  - rewrite (untouched_rows_drop_blank_entries ["env-1"; "env-2"]
               [("DEBUG", ""); ("HOME", "/root")] "DEBUG" "" eq_refl Hnd).
    + reflexivity.
    + apply list_elem_of_here.
    + discriminate.
  - rewrite (untouched_rows_drop_blank_entries ["env-1"; "env-2"]
               [("DEBUG", ""); ("HOME", "/root")] "HOME" "/root" eq_refl Hnd).
    + reflexivity.
    + apply list_elem_of_further, list_elem_of_here.
    + discriminate.
Defined.

(** A session whose project path is a bare directory name. *)
Lemma session_title_of_path_witness :
  Tabs.session_title {| Tabs.session_id := "s3"; Tabs.project_path := "codestudio" |}
  = "codestudio".
Proof.
  pose proof (session_title_of_path
                {| Tabs.session_id := "s3"; Tabs.project_path := "codestudio" |})
    as (_ & _ & _ & H).
  apply H; [discriminate | reflexivity].
Defined.

(** The session of the first tab of the lookup example. *)
Lemma listeners_agree_witness :
  Tabs.handleClaudeSessionSelected example_generateTabId example_registry example_session
  = Tabs.handleOpenSessionInTab example_generateTabId example_registry example_session.
Proof.
  apply (listeners_agree example_generateTabId example_registry example_session).
  left. vm_compute. eexists. reflexivity.
Defined.


End FurtherExamples.
